(** * chdbdriver: the database/sql driver of chdbsession

    A shallow embedding of [driver/driver.go] (package [chdbdriver]) and of
    the two row cursors it constructs.  Go values are modelled as follows:
    - [int] is a [Z] (the driver never does arithmetic on it);
    - [string] is a [string] of bytes, [[]byte] an [option (list byte)]
      whose [None] is the nil slice;
    - [error] is a record holding the text returned by its [Error()] method;
    - a function returning [(T, error)] returns a [result T];
    - [map[string]string] is a [gmap string string].

    Functions of other packages ([strings], [strconv], [ipc], [parquet],
    [sqlbuilder], the engine itself) are variables of the sections that use
    them, except [strconv.Atoi], which is written out. *)

From Stdlib Require Import ZArith Lia Ascii String.
From stdpp Require Import gmap strings list.

Local Open Scope string_scope.
Local Open Scope Z_scope.

(** ** Go preliminaries *)

Record error := Errorf { Error : string }.

Inductive result (A : Type) : Type :=
| Ok (a : A)
| Err (e : error).
Arguments Ok {A} a.
Arguments Err {A} e.

Definition is_ok {A} (r : result A) : bool :=
  match r with Ok _ => true | Err _ => false end.

Definition bytes := list Byte.byte.

(** A [driver.Value] as the cursors produce it: a scalar or a string of
    bytes. *)
Inductive Value :=
| VNull
| VInt (z : Z)
| VString (s : string).

Definition row := list Value.

(** [run step n s] performs [n] successive calls of a method [step] on the
    receiver [s] and collects what they return. *)
Fixpoint run {S R} (step : S -> R * S) (n : nat) (s : S) : list R * S :=
  match n with
  | O => ([], s)
  | Datatypes.S n' =>
      let (r, s') := step s in
      let (rs, s'') := run step n' s' in
      (r :: rs, s'')
  end.

(** ** [strconv.Atoi] *)

Module strconv.

(** [strconv.IntSize] of the 64-bit targets the engine library supports. *)
Definition intSize : Z := 64.
Definition maxInt : Z := 2 ^ (intSize - 1) - 1.
Definition minInt : Z := - 2 ^ (intSize - 1).

Definition digit (a : ascii) : option Z :=
  let n := Z.of_nat (nat_of_ascii a) in
  if (48 <=? n) && (n <=? 57) then Some (n - 48) else None.

Fixpoint digits (acc : Z) (s : string) : option Z :=
  match s with
  | EmptyString => Some acc
  | String a s' =>
      match digit a with
      | Some d => digits (acc * 10 + d) s'
      | None => None
      end
  end.

(** An optional sign, then one or more decimal digits, the value within
    the range of [int]; anything else is an error (syntax or range). *)
Definition Atoi (s : string) : result Z :=
  let bad := Err (Errorf (String.append "strconv.Atoi: parsing " s)) in
  match s with
  | EmptyString => bad
  | String a s' =>
      let neg := Ascii.eqb a "-" in
      let body := if neg || Ascii.eqb a "+" then s' else s in
      match body with
      | EmptyString => bad
      | _ =>
          match digits 0 body with
          | Some n =>
              let v := if neg then - n else n in
              if (minInt <=? v) && (v <=? maxInt) then Ok v else bad
          | None => bad
          end
      end
  end.

End strconv.

(** ** [strings.Split] and [strings.SplitN]

    Written out for a separator of one byte, the only use the driver makes
    of them. *)

Module gostrings.

Fixpoint Contains (s : string) (sep : ascii) : bool :=
  match s with
  | EmptyString => false
  | String a s' => Ascii.eqb a sep || Contains s' sep
  end.

(** [strings.Split s sep]: the substrings between the separators; one
    substring, [s] itself, when there is no separator. *)
Fixpoint Split (s : string) (sep : ascii) : list string :=
  match s with
  | EmptyString => [EmptyString]
  | String a s' =>
      if Ascii.eqb a sep then EmptyString :: Split s' sep
      else
        match Split s' sep with
        | h :: t => String a h :: t
        | [] => [String a EmptyString]
        end
  end.

(** [strings.SplitN s sep 2]: [s] cut at the first separator, or [s] alone
    when there is none. *)
Fixpoint SplitN2 (s : string) (sep : ascii) : list string :=
  match s with
  | EmptyString => [EmptyString]
  | String a s' =>
      if Ascii.eqb a sep then [EmptyString; s']
      else
        match SplitN2 s' sep with
        | h :: t => String a h :: t
        | [] => [String a EmptyString]
        end
  end.

End gostrings.

(** ** Driver types and option keys *)

Definition DriverType := Z.

Definition ARROW : DriverType := 0.
Definition PARQUET : DriverType := 1.
Definition INVALID : DriverType := 2.

Definition sessionOptionKey := "session".
Definition udfPathOptionKey := "udfPath".
Definition driverTypeKey := "driverType".
Definition useUnsafeStringReaderKey := "useUnsafeStringReader".
Definition driverBufferSizeKey := "bufferSize".
Definition defaultBufferSize : Z := 512.

Definition DriverType_String (d : DriverType) : string :=
  if d =? ARROW then "Arrow"
  else if d =? PARQUET then "Parquet"
  else if d =? INVALID then "Invalid"
  else "".


(** ** The result of one execution and the two containers

    [chdbstable.LocalResult], [ipc.FileReader] and [parquet.GenericReader]
    belong to other packages; they are represented by what the driver and
    its cursors observe of them. *)

(** The engine's result: [Buf()] is the nil slice or the encoded rows. *)
Record LocalResult := mkLocalResult { Buf : option bytes }.

(** A record batch of the streaming container: column vectors for a run of
    [numRows] rows. *)
Record batch := mkBatch {
  numRows : nat;
  columns : list (list Value)
}.

(** An opened streaming container: its schema and the batches not yet
    requested; [None] stands for a batch that fails to decode. *)
Record ipcFileReader := mkIpcFileReader {
  ipc_schema : list string;
  ipc_batches : list (option batch)
}.

(** An opened file container: its schema and the rows not yet read; [None]
    stands for a position at which decoding fails. *)
Record parquetReader := mkParquetReader {
  pq_schema : list string;
  pq_rows : list (option row)
}.

(** What [Next] reports: a nil error with the destination slots filled,
    [io.EOF], a decode failure, or use of a closed cursor. *)
Inductive next_result :=
| NextRow (r : row)
| EndOfData
| DecodeError
| UseAfterClose.

(** ** The streaming cursor, [arrowRows] *)

Module StreamCursor.

(** Modelled from the spec: the declaration of [arrowRows] and its methods
    [Columns], [Next] and [Close] are not in driver.go.  The fields
    [localResult] and [reader] are those of the literal in [PrepareRows];
    the others are the cursor state of spec section 3, and two counters
    recording how often the reader and the result buffer were released. *)
Record arrowRows := mkArrowRows {
  localResult : LocalResult;
  reader : ipcFileReader;
  curRecord : option batch;
  curRow : nat;
  exhausted : bool;
  closed : bool;
  readerReleases : nat;
  resultReleases : nat
}.

Definition set_position (c : arrowRows) (rd : ipcFileReader)
    (b : option batch) (i : nat) : arrowRows :=
  {| localResult := localResult c; reader := rd; curRecord := b;
     curRow := i; exhausted := exhausted c; closed := closed c;
     readerReleases := readerReleases c;
     resultReleases := resultReleases c |}.

Definition set_exhausted (c : arrowRows) : arrowRows :=
  {| localResult := localResult c; reader := reader c;
     curRecord := curRecord c; curRow := curRow c; exhausted := true;
     closed := closed c; readerReleases := readerReleases c;
     resultReleases := resultReleases c |}.

(** Modelled from the spec: [Close] (section 4.2): the first call releases
    the container reader and the result buffer, later calls do nothing;
    the error returned is always nil. *)
Definition Close (c : arrowRows) : option error * arrowRows :=
  if closed c then (None, c)
  else (None,
        {| localResult := localResult c; reader := reader c;
           curRecord := None; curRow := curRow c;
           exhausted := exhausted c; closed := true;
           readerReleases := S (readerReleases c);
           resultReleases := S (resultReleases c) |}).

(** Modelled from the spec: [Columns] (section 4.2): the schema's names,
    an error once the cursor is closed. *)
Definition Columns (c : arrowRows) : result (list string) :=
  if closed c then Err (Errorf "cursor closed")
  else Ok (ipc_schema (reader c)).

(** Modelled from the spec: a decode failure is propagated and the cursor
    becomes closed (section 4.3, step 4). *)
Definition fail (c : arrowRows) : next_result * arrowRows :=
  (DecodeError, snd (Close c)).

(** Modelled from the spec: the values at row [i] across all columns of
    [b] (section 4.3, step 3); a column too short for [i] has none. *)
Definition batch_row (b : batch) (i : nat) : option row :=
  mapM (fun col : list Value => col !! i) (columns b).

(** Modelled from the spec: the row at the current index is read and the
    index advanced (section 4.3, step 3); an index outside the batch, a
    column count other than the schema's or a column too short is a decode
    failure (step 4). *)
Definition read_row (c : arrowRows) (b : batch) : next_result * arrowRows :=
  if negb (curRow c <? numRows b)%nat then fail c
  else if negb (length (columns b) =? length (ipc_schema (reader c)))%nat
  then fail c
  else
    match batch_row b (curRow c) with
    | Some r =>
        (NextRow r, set_position c (reader c) (curRecord c) (S (curRow c)))
    | None => fail c
    end.

(** Modelled from the spec: the loaded batch, unless none is loaded or it
    is exhausted (section 4.3, step 2). *)
Definition current (c : arrowRows) : option batch :=
  match curRecord c with
  | Some b => if (curRow c <? numRows b)%nat then Some b else None
  | None => None
  end.

(** What a request for the next batch yields. *)
Inductive requested :=
| NoMoreBatches
| CorruptBatch
| Loaded (b : batch) (rest : list (option batch)).

(** Modelled from the spec: the request for the next batch (section 4.3,
    step 2).  A batch without rows is exhausted as soon as it is loaded, so
    the request is repeated until a batch has a row or the container
    ends. *)
Fixpoint request (bs : list (option batch)) : requested :=
  match bs with
  | [] => NoMoreBatches
  | None :: _ => CorruptBatch
  | Some b :: rest =>
      if (numRows b =? 0)%nat then request rest else Loaded b rest
  end.

(** Modelled from the spec: [Next] (sections 4.2 and 4.3): on a closed
    cursor the call fails; if no batch is loaded or the loaded one is
    exhausted the next batch is requested, and its absence is the end of
    the data; the row at the current index is then read across all
    columns and the index advanced. *)
Definition Next (c : arrowRows) : next_result * arrowRows :=
  if closed c then (UseAfterClose, c)
  else
    match current c with
    | Some b => read_row c b
    | None =>
        match request (ipc_batches (reader c)) with
        | NoMoreBatches =>
            (EndOfData,
             set_exhausted
               (set_position c
                  {| ipc_schema := ipc_schema (reader c); ipc_batches := [] |}
                  (curRecord c) (curRow c)))
        | CorruptBatch => fail c
        | Loaded b rest =>
            read_row
              (set_position c
                 {| ipc_schema := ipc_schema (reader c);
                    ipc_batches := rest |} (Some b) 0%nat) b
        end
    end.

(** The rows of a batch and of a container, in the order the container
    presents them. *)
Definition row_at (b : batch) (i : nat) : row :=
  map (fun col => nth i col VNull) (columns b).

Definition rows_of_batch (b : batch) : list row :=
  map (row_at b) (seq 0 (numRows b)).

Definition rows_of (rd : ipcFileReader) : list row :=
  concat (map (fun ob => from_option rows_of_batch [] ob) (ipc_batches rd)).

(** A well-formed container: every batch decodes, has one column per
    schema entry and columns of the declared length. *)
Definition wf_batch (ncols : nat) (b : batch) : bool :=
  (length (columns b) =? ncols)%nat
  && forallb (fun col => (length col =? numRows b)%nat) (columns b).

Definition well_formed (rd : ipcFileReader) : bool :=
  forallb (fun ob => from_option (wf_batch (length (ipc_schema rd))) false ob)
          (ipc_batches rd).

End StreamCursor.

(** ** The file-container cursor, [parquetRows] *)

Module FileCursor.

(** Modelled from the spec: the declaration of [parquetRows] and its
    methods are not in driver.go.  The fields [localResult], [reader],
    [bufferSize], [needNewBuffer] and [useUnsafeStringReader] are those of
    the literal in [PrepareRows]; [buffer] and [bufferIndex] are the
    staging buffer of spec section 3 and the position in it, [reads]
    counts the requests made to the underlying reader, and the last two
    fields count the releases of the reader and of the result buffer. *)
Record parquetRows := mkParquetRows {
  localResult : LocalResult;
  reader : parquetReader;
  bufferSize : Z;
  needNewBuffer : bool;
  useUnsafeStringReader : bool;
  buffer : list row;
  bufferIndex : nat;
  exhausted : bool;
  closed : bool;
  reads : nat;
  readerReleases : nat;
  resultReleases : nat
}.

(** Modelled from the spec: a request for up to [n] rows (section 4.4,
    step 1): the next [n] rows, fewer at the end of the container, or
    nothing when one of them does not decode or does not have one value
    per declared column. *)
Definition ReadRows (rd : parquetReader) (n : nat)
    : option (list row * parquetReader) :=
  match mapM id (take n (pq_rows rd)) with
  | Some rs =>
      if forallb (fun r : row => (length r =? length (pq_schema rd))%nat) rs
      then Some (rs, {| pq_schema := pq_schema rd;
                        pq_rows := drop n (pq_rows rd) |})
      else None
  | None => None
  end.

(** The cursor after a request: the reader has advanced and the request
    is counted. *)
Definition after_read (c : parquetRows) (rd : parquetReader) : parquetRows :=
  {| localResult := localResult c; reader := rd;
     bufferSize := bufferSize c; needNewBuffer := needNewBuffer c;
     useUnsafeStringReader := useUnsafeStringReader c;
     buffer := buffer c; bufferIndex := bufferIndex c;
     exhausted := exhausted c; closed := closed c;
     reads := S (reads c); readerReleases := readerReleases c;
     resultReleases := resultReleases c |}.

Definition set_buffer (c : parquetRows) (rs : list row) (i : nat)
    (refill : bool) : parquetRows :=
  {| localResult := localResult c; reader := reader c;
     bufferSize := bufferSize c; needNewBuffer := refill;
     useUnsafeStringReader := useUnsafeStringReader c;
     buffer := rs; bufferIndex := i;
     exhausted := exhausted c; closed := closed c;
     reads := reads c; readerReleases := readerReleases c;
     resultReleases := resultReleases c |}.

Definition set_exhausted (c : parquetRows) : parquetRows :=
  {| localResult := localResult c; reader := reader c;
     bufferSize := bufferSize c; needNewBuffer := needNewBuffer c;
     useUnsafeStringReader := useUnsafeStringReader c;
     buffer := buffer c; bufferIndex := bufferIndex c;
     exhausted := true; closed := closed c;
     reads := reads c; readerReleases := readerReleases c;
     resultReleases := resultReleases c |}.

(** Modelled from the spec: [Close] (section 4.2): the first call releases
    the container reader and the result buffer, later calls do nothing;
    the error returned is always nil. *)
Definition Close (c : parquetRows) : option error * parquetRows :=
  if closed c then (None, c)
  else (None,
        {| localResult := localResult c; reader := reader c;
           bufferSize := bufferSize c; needNewBuffer := needNewBuffer c;
           useUnsafeStringReader := useUnsafeStringReader c;
           buffer := []; bufferIndex := bufferIndex c;
           exhausted := exhausted c; closed := true;
           reads := reads c; readerReleases := S (readerReleases c);
           resultReleases := S (resultReleases c) |}).

(** Modelled from the spec: [Columns] (section 4.2): the schema's names,
    an error once the cursor is closed. *)
Definition Columns (c : parquetRows) : result (list string) :=
  if closed c then Err (Errorf "cursor closed")
  else Ok (pq_schema (reader c)).

(** Modelled from the spec: a reader error is propagated and the cursor
    becomes closed (section 4.4, step 4). *)
Definition fail (c : parquetRows) : next_result * parquetRows :=
  (DecodeError, snd (Close c)).

(** Modelled from the spec: the next row is popped from the staging
    buffer; when the buffer is thereby consumed, [needNewBuffer] is set
    for the next call (section 4.4, steps 2 and 3). *)
Definition pop (c : parquetRows) : next_result * parquetRows :=
  match buffer c !! bufferIndex c with
  | Some r =>
      let i := S (bufferIndex c) in
      (NextRow r, set_buffer c (buffer c) i (i =? length (buffer c))%nat)
  | None => fail c
  end.

(** Modelled from the spec: [Next] (sections 4.2 and 4.4): on a closed
    cursor the call fails; if [needNewBuffer] is set, up to [bufferSize]
    rows are requested from the underlying reader: no row is the end of
    the data, otherwise the rows become the staging buffer and the flag
    is cleared; then a row is popped. *)
Definition Next (c : parquetRows) : next_result * parquetRows :=
  if closed c then (UseAfterClose, c)
  else if needNewBuffer c then
    match ReadRows (reader c) (Z.to_nat (bufferSize c)) with
    | None => fail (after_read c (reader c))
    | Some ([], rd) => (EndOfData, set_exhausted (after_read c rd))
    | Some (rs, rd) => pop (set_buffer (after_read c rd) rs 0%nat false)
    end
  else pop c.

(** The rows of a container, in the order it presents them. *)
Definition rows_of (rd : parquetReader) : list row :=
  omap id (pq_rows rd).

(** A well-formed container: every row decodes and has one value per
    declared column. *)
Definition well_formed (rd : parquetReader) : bool :=
  forallb (fun o : option row =>
             from_option
               (fun r => (length r =? length (pq_schema rd))%nat) false o)
          (pq_rows rd).


End FileCursor.

(** ** [driver.Rows]: the cursor behind the interface *)

Inductive Rows :=
| RowsArrow (r : StreamCursor.arrowRows)
| RowsParquet (r : FileCursor.parquetRows).

Definition Rows_Next (r : Rows) : next_result * Rows :=
  match r with
  | RowsArrow c => let (x, c') := StreamCursor.Next c in (x, RowsArrow c')
  | RowsParquet c => let (x, c') := FileCursor.Next c in (x, RowsParquet c')
  end.

Definition Rows_Close (r : Rows) : option error * Rows :=
  match r with
  | RowsArrow c => let (x, c') := StreamCursor.Close c in (x, RowsArrow c')
  | RowsParquet c => let (x, c') := FileCursor.Close c in (x, RowsParquet c')
  end.

Definition Rows_Columns (r : Rows) : result (list string) :=
  match r with
  | RowsArrow c => StreamCursor.Columns c
  | RowsParquet c => FileCursor.Columns c
  end.

Definition Rows_closed (r : Rows) : bool :=
  match r with
  | RowsArrow c => StreamCursor.closed c
  | RowsParquet c => FileCursor.closed c
  end.

(** How often the container reader and the result buffer were released. *)
Definition Rows_releases (r : Rows) : nat * nat :=
  match r with
  | RowsArrow c =>
      (StreamCursor.readerReleases c, StreamCursor.resultReleases c)
  | RowsParquet c =>
      (FileCursor.readerReleases c, FileCursor.resultReleases c)
  end.

(** The release counters of a cursor agree with its [closed] flag. *)
Definition released_once (r : Rows) : Prop :=
  Rows_releases r = if Rows_closed r then (1%nat, 1%nat) else (0%nat, 0%nat).

(** The calls a client can make on a cursor, and a sequence of them. *)
Inductive call := CallNext | CallClose | CallColumns.

Definition do_call (r : Rows) (k : call) : Rows :=
  match k with
  | CallNext => snd (Rows_Next r)
  | CallClose => snd (Rows_Close r)
  | CallColumns => r
  end.

Definition do_calls (ks : list call) (r : Rows) : Rows :=
  fold_left do_call ks r.

(** ** Sample inputs

    Case mappings on ASCII strings, on which [strings.ToUpper] and
    [strings.ToLower] map letters bytewise, and small containers, used to
    run the definitions. *)

Definition upper_byte (a : ascii) : ascii :=
  let n := nat_of_ascii a in
  if ((97 <=? n) && (n <=? 122))%nat then ascii_of_nat (n - 32) else a.

Definition lower_byte (a : ascii) : ascii :=
  let n := nat_of_ascii a in
  if ((65 <=? n) && (n <=? 90))%nat then ascii_of_nat (n + 32) else a.

Fixpoint map_bytes (f : ascii -> ascii) (s : string) : string :=
  match s with
  | EmptyString => EmptyString
  | String a s' => String (f a) (map_bytes f s')
  end.

Definition ToUpper_ascii : string -> string := map_bytes upper_byte.
Definition ToLower_ascii : string -> string := map_bytes lower_byte.

(** [strings.TrimSpace] on ASCII strings: the bytes tab, line feed,
    vertical tab, form feed, carriage return and space are removed at both
    ends. *)
Definition is_space (a : ascii) : bool :=
  let n := nat_of_ascii a in
  ((9 <=? n) && (n <=? 13) || (n =? 32))%nat.

Fixpoint trim_left (s : string) : string :=
  match s with
  | EmptyString => EmptyString
  | String a s' => if is_space a then trim_left s' else s
  end.

Fixpoint trim_right (s : string) : string :=
  match s with
  | EmptyString => EmptyString
  | String a s' =>
      match trim_right s' with
      | EmptyString => if is_space a then EmptyString else String a EmptyString
      | t => String a t
      end
  end.

Definition TrimSpace_ascii (s : string) : string := trim_right (trim_left s).

(** Three batches, of two rows, of no row and of one row, over the columns
    [id] and [name]. *)
Definition sample_stream : ipcFileReader :=
  {| ipc_schema := ["id"; "name"];
     ipc_batches :=
       [Some {| numRows := 2;
                columns := [[VInt 1; VInt 2]; [VString "a"; VString "b"]] |};
        Some {| numRows := 0; columns := [[]; []] |};
        Some {| numRows := 1;
                columns := [[VInt 3]; [VString "c"]] |}] |}.

(** Four rows over the column [id]. *)
Definition sample_file : parquetReader :=
  {| pq_schema := ["id"];
     pq_rows := [Some [VInt 1]; Some [VInt 2]; Some [VInt 3]; Some [VInt 4]] |}.

(** ** [singleRow]: the result of [QueryRow]

    [Scan] and [Err] are written against the interface [driver.Rows]; they
    are modelled over any type of rows with its [Next] and [Close]. *)

Section SingleRow.

Variable R : Type.
Variable R_Next : R -> list Value -> option error * R.
Variable R_Close : R -> option error * R.

(** [err] is the deferred error; [rows] is nil when it is [None]. *)
Record singleRow := mkSingleRow {
  sr_err : option error;
  sr_rows : option R
}.

(** [None] is the panic of calling [Next] on nil rows.  The values [Next]
    stores go to the slice [vals], which [Scan] drops. *)
Definition Scan (r : singleRow) (dest : list Value)
    : option (option error * singleRow) :=
  match sr_err r with
  | Some e => Some (Some e, r)
  | None =>
      let vals := foldl (fun vals v => vals ++ [v])%list [] dest in
      match sr_rows r with
      | None => None
      | Some rows =>
          let (e, rows') := R_Next rows vals in
          match e with
          | Some e => Some (Some e, {| sr_err := None; sr_rows := Some rows' |})
          | None =>
              let (e', rows'') := R_Close rows' in
              Some (e', {| sr_err := None; sr_rows := Some rows'' |})
          end
      end
  end.

Definition singleRow_Err (r : singleRow) : option error := sr_err r.

End SingleRow.

(** ** The driver *)

Section Driver.

(** [strings.ToUpper] and [strings.ToLower] (Unicode case mappings). *)
Variables ToUpper ToLower : string -> string.

(** The session type of the root package and its constructor. *)
Variable Session : Type.
Variable NewSession : string -> result Session.

Definition parseDriverType (s : string) : DriverType :=
  let u := ToUpper s in
  if String.eqb u "ARROW" then ARROW
  else if String.eqb u "PARQUET" then PARQUET
  else INVALID.

Record connector := mkConnector {
  c_udfPath : string;
  c_driverType : DriverType;
  c_bufferSize : Z;
  c_useUnsafe : bool;
  c_session : option Session
}.

Definition NewConnect (opts : gmap string string) : result connector :=
  let session :=
    match opts !! sessionOptionKey with
    | Some sessionPath =>
        match NewSession sessionPath with
        | Ok s => Ok (Some s)
        | Err e => Err e
        end
    | None => Ok None
    end in
  match session with
  | Err e => Err e
  | Ok session =>
      let driverType :=
        match opts !! driverTypeKey with
        | Some driverType => parseDriverType driverType
        | None => ARROW
        end in
      let bufferSize :=
        match opts !! driverBufferSizeKey with
        | Some bufferSize =>
            match strconv.Atoi bufferSize with
            | Err _ => defaultBufferSize
            | Ok sz => sz
            end
        | None => defaultBufferSize
        end in
      let useUnsafe :=
        match opts !! useUnsafeStringReaderKey with
        | Some useUnsafe => String.eqb (ToLower useUnsafe) "true"
        | None => false
        end in
      let udfPath :=
        match opts !! udfPathOptionKey with
        | Some udfPath => udfPath
        | None => ""
        end in
      Ok {| c_udfPath := udfPath; c_driverType := driverType;
            c_bufferSize := bufferSize; c_useUnsafe := useUnsafe;
            c_session := session |}
  end.

(** [ipc.NewFileReader] and [parquet.NewGenericReader] over the bytes of a
    result buffer. *)
Variable ipc_NewFileReader : bytes -> result ipcFileReader.
Variable parquet_NewGenericReader : bytes -> parquetReader.

(** The accesses a cursor construction makes to the result buffer. *)
Inductive access :=
| OpenStream (buf : bytes)
| OpenFile (buf : bytes).

(** The zero values of the fields which the literals of [PrepareRows] leave
    out are written out. *)
Definition PrepareRows (d : DriverType) (res : LocalResult) (buf : bytes)
    (bufSize : Z) (useUnsafe : bool) : result Rows * list access :=
  if d =? ARROW then
    match ipc_NewFileReader buf with
    | Err err => (Err err, [OpenStream buf])
    | Ok reader =>
        (Ok (RowsArrow
               {| StreamCursor.localResult := res;
                  StreamCursor.reader := reader;
                  StreamCursor.curRecord := None;
                  StreamCursor.curRow := 0%nat;
                  StreamCursor.exhausted := false;
                  StreamCursor.closed := false;
                  StreamCursor.readerReleases := 0%nat;
                  StreamCursor.resultReleases := 0%nat |}),
         [OpenStream buf])
    end
  else if d =? PARQUET then
    let reader := parquet_NewGenericReader buf in
    (Ok (RowsParquet
           {| FileCursor.localResult := res;
              FileCursor.reader := reader;
              FileCursor.bufferSize := bufSize;
              FileCursor.needNewBuffer := true;
              FileCursor.useUnsafeStringReader := useUnsafe;
              FileCursor.buffer := [];
              FileCursor.bufferIndex := 0%nat;
              FileCursor.exhausted := false;
              FileCursor.closed := false;
              FileCursor.reads := 0%nat;
              FileCursor.readerReleases := 0%nat;
              FileCursor.resultReleases := 0%nat |}),
     [OpenFile buf])
  else (Err (Errorf "Unsupported driver type"), []).

Record execResult := mkExecResult { err : option error }.

Definition LastInsertId (e : execResult) : Z * option error :=
  match err e with
  | Some x => (0, Some x)
  | None => (-1, Some (Errorf "does not support LastInsertId"))
  end.

Definition RowsAffected (e : execResult) : Z * option error :=
  match err e with
  | Some x => (0, Some x)
  | None => (-1, Some (Errorf "does not support RowsAffected"))
  end.

Definition queryHandle := string -> list string -> result LocalResult.

(** [chdb.Query] and [Session.Query] of the root package. *)
Variable chdb_Query : queryHandle.
Variable Session_Query : Session -> queryHandle.

(** [sqlbuilder.ClickHouse.Interpolate]. *)
Variable Interpolate : string -> list Value -> result string.

Record conn := mkConn {
  udfPath : string;
  driverType : DriverType;
  bufferSize : Z;
  useUnsafe : bool;
  session : option Session;
  QueryFun : queryHandle
}.

Definition SetupQueryFun (session : option Session) : queryHandle :=
  match session with
  | Some s => Session_Query s
  | None => chdb_Query
  end.

Definition Connect (c : connector) : result conn :=
  if c_driverType c =? INVALID then
    Err (Errorf "DriverType not supported")
  else
    Ok {| udfPath := c_udfPath c; session := c_session c;
          driverType := c_driverType c; bufferSize := c_bufferSize c;
          useUnsafe := c_useUnsafe c;
          QueryFun := SetupQueryFun (c_session c) |}.

Record NamedValue := mkNamedValue { Ordinal : Z; NamedValue_Value : Value }.

Definition prepareValues (values : list Value) : list NamedValue :=
  imap (fun i value =>
          {| Ordinal := Z.of_nat i; NamedValue_Value := value |}) values.

Definition compileArguments (query : string) (args : list NamedValue)
    : result string :=
  if (0 <? length args)%nat then
    Interpolate query (map NamedValue_Value args)
  else Ok query.

Definition QueryContext (c : conn) (query : string) (args : list NamedValue)
    : result Rows :=
  match compileArguments query args with
  | Err e => Err e
  | Ok compiledQuery =>
      match QueryFun c compiledQuery
              [DriverType_String (driverType c); udfPath c] with
      | Err e => Err e
      | Ok res =>
          match Buf res with
          | None => Err (Errorf "result is nil")
          | Some buf =>
              fst (PrepareRows (driverType c) res buf (bufferSize c)
                     (useUnsafe c))
          end
      end
  end.

Definition ExecContext (c : conn) (query : string) (args : list NamedValue)
    : result execResult :=
  match QueryContext c query args with
  | Err e =>
      if negb (String.eqb (Error e) "result is nil") then Err e
      else Ok {| err := None |}
  | Ok _ => Ok {| err := None |}
  end.

Definition Query (c : conn) (query : string) (values : list Value)
    : result Rows :=
  QueryContext c query (prepareValues values).

Definition Exec (c : conn) (query : string) (values : list Value)
    : result execResult :=
  ExecContext c query (prepareValues values).

(** [strings.TrimSpace] (Unicode white space). *)
Variable TrimSpace : string -> string.

(** The loop of [parseConnectStr] over the segments between semicolons. *)
Fixpoint parseConnectStr_loop (kvs : list string) (ret : gmap string string)
    : result (gmap string string) :=
  match kvs with
  | [] => Ok ret
  | kv :: kvs' =>
      match gostrings.SplitN2 kv "=" with
      | [k; v] =>
          parseConnectStr_loop kvs' (<[TrimSpace k := TrimSpace v]> ret)
      | _ =>
          Err (Errorf (String.append
                         "invalid format for connection string, str: " kv))
      end
  end.

Definition parseConnectStr (str : string) : result (gmap string string) :=
  if (String.length str =? 0)%nat then Ok ∅
  else parseConnectStr_loop (gostrings.Split str ";") ∅.

Definition OpenConnector (name : string) : result connector :=
  match parseConnectStr name with
  | Err e => Err e
  | Ok opts => NewConnect opts
  end.

Definition Open (name : string) : result conn :=
  match OpenConnector name with
  | Err e => Err e
  | Ok cc => Connect cc
  end.

Definition QueryRowContext (c : conn) (query : string) (values : list Value)
    : singleRow Rows :=
  match QueryContext c query (prepareValues values) with
  | Err e => {| sr_err := Some e; sr_rows := None |}
  | Ok v => {| sr_err := None; sr_rows := Some v |}
  end.

Definition QueryRow (c : conn) (query : string) (values : list Value)
    : singleRow Rows :=
  QueryRowContext c query values.

(** * Properties *)

(** ** Connection options *)

Lemma NewConnect_fields (opts : gmap string string) (c : connector) :
  NewConnect opts = Ok c ->
  c_driverType c =
    match opts !! driverTypeKey with
    | Some driverType => parseDriverType driverType
    | None => ARROW
    end
  /\ c_bufferSize c =
    match opts !! driverBufferSizeKey with
    | Some bufferSize =>
        match strconv.Atoi bufferSize with
        | Err _ => defaultBufferSize
        | Ok sz => sz
        end
    | None => defaultBufferSize
    end.
Proof.
  unfold NewConnect. intros H.
  destruct (opts !! sessionOptionKey) as [p|];
    [destruct (NewSession p)|]; inversion H; subst; simpl; auto.
Qed.

Lemma Atoi_range (s : string) (z : Z) :
  strconv.Atoi s = Ok z -> strconv.minInt <= z <= strconv.maxInt.
Proof.
  unfold strconv.Atoi. destruct s as [|a s]; [discriminate|].
  cbv zeta.
  match goal with
  | |- context [match ?body with EmptyString => _ | String _ _ => _ end] =>
      destruct body; [discriminate|]
  end.
  destruct (strconv.digits _ _) as [n|]; [|discriminate].
  destruct (_ && _) eqn:Hr; [|discriminate].
  intros [= <-]. apply andb_true_iff in Hr. lia.
Qed.

Lemma parseDriverType_cases (s : string) :
  parseDriverType s = ARROW /\ ToUpper s = "ARROW"
  \/ parseDriverType s = PARQUET /\ ToUpper s = "PARQUET"
  \/ parseDriverType s = INVALID
     /\ ToUpper s <> "ARROW" /\ ToUpper s <> "PARQUET".
Proof.
  unfold parseDriverType.
  destruct (String.eqb_spec (ToUpper s) "ARROW") as [E1|N1]; [auto|].
  destruct (String.eqb_spec (ToUpper s) "PARQUET") as [E2|N2]; auto.
Qed.

(** C7 (as amended): the staging capacity of a connector is an [int] that
    need not be positive: it is the default of 512 rows when the
    [bufferSize] option is absent or is not accepted by [Atoi], and
    otherwise the parsed number as it is, zero and negative numbers
    included. *)
Theorem NewConnect_bufferSize (opts : gmap string string) (c : connector) :
  NewConnect opts = Ok c ->
  strconv.minInt <= c_bufferSize c <= strconv.maxInt
  /\ (opts !! driverBufferSizeKey = None -> c_bufferSize c = 512)
  /\ (forall s e, opts !! driverBufferSizeKey = Some s ->
        strconv.Atoi s = Err e -> c_bufferSize c = 512)
  /\ (forall s sz, opts !! driverBufferSizeKey = Some s ->
        strconv.Atoi s = Ok sz -> c_bufferSize c = sz).
Proof.
  intros H. apply NewConnect_fields in H as [_ Hb]. rewrite Hb. clear Hb.
  split; [|split; [|split]].
  - assert (Hd : strconv.minInt <= defaultBufferSize <= strconv.maxInt)
      by (vm_compute; split; discriminate).
    destruct (opts !! driverBufferSizeKey) as [s|]; [|exact Hd].
    destruct (strconv.Atoi s) as [sz|e] eqn:Ha; [|exact Hd].
    exact (Atoi_range s sz Ha).
  - intros ->. reflexivity.
  - intros s e -> ->. reflexivity.
  - intros s sz -> ->. reflexivity.
Qed.

(** C9: without a [driverType] option the connector uses ARROW; a value
    that is neither spelling yields INVALID, which [Connect] refuses; so a
    connection that was established uses ARROW or PARQUET. *)
Theorem connected_driverType (opts : gmap string string) (c : connector) :
  NewConnect opts = Ok c ->
  (opts !! driverTypeKey = None -> c_driverType c = ARROW)
  /\ (forall s, opts !! driverTypeKey = Some s ->
        ToUpper s <> "ARROW" -> ToUpper s <> "PARQUET" ->
        c_driverType c = INVALID)
  /\ (c_driverType c = INVALID ->
        Connect c = Err (Errorf "DriverType not supported"))
  /\ (forall cc, Connect c = Ok cc ->
        driverType cc = c_driverType c
        /\ (driverType cc = ARROW \/ driverType cc = PARQUET)).
Proof.
  intros H. apply NewConnect_fields in H as [Hd _].
  split; [|split; [|split]].
  - intros E. rewrite Hd, E. reflexivity.
  - intros s E N1 N2. rewrite Hd, E.
    destruct (parseDriverType_cases s) as [[_ ?]|[[_ ?]|[? _]]]; congruence.
  - intros E. unfold Connect. rewrite E. reflexivity.
  - intros cc. unfold Connect.
    destruct (c_driverType c =? INVALID) eqn:Hi; [discriminate|].
    intros [= <-]. simpl. split; [reflexivity|].
    apply Z.eqb_neq in Hi. rewrite Hd in *.
    destruct (opts !! driverTypeKey) as [s|]; [|auto].
    destruct (parseDriverType_cases s) as [[? _]|[[? _]|[? _]]]; auto.
    contradiction.
Qed.

(** ** Cursor construction *)

(** C5: for a format tag other than ARROW and PARQUET, [PrepareRows] fails
    with the unsupported-type error and makes no access to the buffer. *)
Theorem PrepareRows_unsupported (d : DriverType) (res : LocalResult)
    (buf : bytes) (bufSize : Z) (useUnsafe : bool) :
  d <> ARROW -> d <> PARQUET ->
  PrepareRows d res buf bufSize useUnsafe
  = (Err (Errorf "Unsupported driver type"), []).
Proof.
  intros Ha Hp. unfold PrepareRows.
  destruct (Z.eqb_spec d ARROW); [contradiction|].
  destruct (Z.eqb_spec d PARQUET); [contradiction|]. reflexivity.
Qed.

(** C8: for PARQUET, [PrepareRows] always returns a file cursor with
    [needNewBuffer] set, an empty staging buffer and no request made to the
    reader: the buffer has been opened, nothing more. *)
Theorem PrepareRows_parquet_needNewBuffer (res : LocalResult) (buf : bytes)
    (bufSize : Z) (useUnsafe : bool) :
  exists c,
    PrepareRows PARQUET res buf bufSize useUnsafe
    = (Ok (RowsParquet c), [OpenFile buf])
    /\ FileCursor.needNewBuffer c = true
    /\ FileCursor.buffer c = []
    /\ FileCursor.reads c = 0%nat
    /\ FileCursor.reader c = parquet_NewGenericReader buf
    /\ FileCursor.bufferSize c = bufSize
    /\ FileCursor.closed c = false.
Proof. eexists. split; [reflexivity|]. simpl. auto 10. Qed.

(** ** The query and exec paths *)

Lemma ExecContext_ok_iff (c : conn) (query : string) (args : list NamedValue) :
  is_ok (ExecContext c query args) = true <->
  is_ok (QueryContext c query args) = true
  \/ exists e, QueryContext c query args = Err e /\ Error e = "result is nil".
Proof.
  unfold ExecContext.
  destruct (QueryContext c query args) as [r|e]; simpl.
  - split; auto.
  - destruct (String.eqb_spec (Error e) "result is nil") as [E|N]; simpl.
    + split; eauto.
    + split; [discriminate|]. intros [?|(e' & [= <-] & ?)]; congruence.
Qed.

(** C6: an execution whose result has a nil buffer makes [QueryContext]
    fail with the message "result is nil"; [ExecContext] succeeds exactly
    when [QueryContext] succeeds or fails with an error of that message,
    whatever produced the error. *)
Theorem ExecContext_result_is_nil (c : conn) (query : string)
    (args : list NamedValue) :
  (forall q res,
      compileArguments query args = Ok q ->
      QueryFun c q [DriverType_String (driverType c); udfPath c] = Ok res ->
      Buf res = None ->
      QueryContext c query args = Err (Errorf "result is nil"))
  /\ (is_ok (ExecContext c query args) = true <->
      is_ok (QueryContext c query args) = true
      \/ exists e, QueryContext c query args = Err e
                   /\ Error e = "result is nil")
  /\ (forall e,
      QueryContext c query args = Err e ->
      ExecContext c query args
      = if String.eqb (Error e) "result is nil"
        then Ok {| err := None |} else Err e).
Proof.
  split; [|split].
  - intros q res Hq Hr Hb. unfold QueryContext. rewrite Hq, Hr, Hb. reflexivity.
  - apply ExecContext_ok_iff.
  - intros e He. unfold ExecContext. rewrite He.
    destruct (String.eqb _ _); reflexivity.
Qed.

(** C10: the result of a statement that [ExecContext] executed reports -1
    and a "does not support" error for both [LastInsertId] and
    [RowsAffected]. *)
Theorem ExecContext_result_unsupported (c : conn) (query : string)
    (args : list NamedValue) (r : execResult) :
  ExecContext c query args = Ok r ->
  LastInsertId r = (-1, Some (Errorf "does not support LastInsertId"))
  /\ RowsAffected r = (-1, Some (Errorf "does not support RowsAffected")).
Proof.
  unfold ExecContext. intros H.
  assert (r = {| err := None |}) as ->.
  { destruct (QueryContext c query args) as [?|e];
      [|destruct (negb _)]; congruence. }
  split; reflexivity.
Qed.

(** ** Closing a cursor *)

Lemma Rows_Close_closed (r : Rows) : Rows_closed (snd (Rows_Close r)) = true.
Proof.
  destruct r as [c|c]; simpl;
    [unfold StreamCursor.Close|unfold FileCursor.Close];
    destruct (_ c) eqn:E; simpl; auto.
Qed.

Lemma Rows_Close_ok (r : Rows) : fst (Rows_Close r) = None.
Proof.
  destruct r as [c|c]; simpl;
    [unfold StreamCursor.Close|unfold FileCursor.Close];
    destruct (_ c); reflexivity.
Qed.

Lemma Rows_Close_noop (r : Rows) :
  Rows_closed r = true -> Rows_Close r = (None, r).
Proof.
  destruct r as [c|c]; simpl; intros E;
    [unfold StreamCursor.Close|unfold FileCursor.Close];
    rewrite E; reflexivity.
Qed.

Lemma Rows_Next_closed (r : Rows) :
  Rows_closed r = true -> Rows_Next r = (UseAfterClose, r).
Proof.
  destruct r as [c|c]; simpl; intros E;
    [unfold StreamCursor.Next|unfold FileCursor.Next];
    rewrite E; reflexivity.
Qed.

Lemma do_call_closed (r : Rows) (k : call) :
  Rows_closed r = true -> do_call r k = r.
Proof.
  intros E. destruct k; simpl; auto.
  - rewrite Rows_Next_closed; auto.
  - rewrite Rows_Close_noop; auto.
Qed.

Lemma do_calls_closed (ks : list call) (r : Rows) :
  Rows_closed r = true -> do_calls ks r = r.
Proof.
  unfold do_calls. induction ks as [|k ks IH]; simpl; intros E; [reflexivity|].
  rewrite do_call_closed by exact E. auto.
Qed.

Lemma released_once_Close (r : Rows) :
  released_once r -> released_once (snd (Rows_Close r)).
Proof.
  unfold released_once. destruct r as [c|c]; simpl.
  - unfold StreamCursor.Close.
    destruct (StreamCursor.closed c) eqn:E; simpl; rewrite ?E; [auto|].
    intros [= -> ->]. reflexivity.
  - unfold FileCursor.Close.
    destruct (FileCursor.closed c) eqn:E; simpl; rewrite ?E; [auto|].
    intros [= -> ->]. reflexivity.
Qed.

Lemma stream_fail_released (c : StreamCursor.arrowRows) :
  released_once (RowsArrow c) ->
  released_once (RowsArrow (snd (StreamCursor.fail c))).
Proof.
  intros H. pose proof (released_once_Close (RowsArrow c) H) as H'.
  unfold StreamCursor.fail. simpl in *.
  destruct (StreamCursor.Close c). exact H'.
Qed.

Lemma stream_read_row_released (c : StreamCursor.arrowRows) (b : batch) :
  released_once (RowsArrow c) ->
  released_once (RowsArrow (snd (StreamCursor.read_row c b))).
Proof.
  intros H. unfold StreamCursor.read_row.
  repeat (destruct (negb _); [apply stream_fail_released; exact H|]).
  destruct (StreamCursor.batch_row _ _);
    [exact H|apply stream_fail_released; exact H].
Qed.

Lemma file_fail_released (c : FileCursor.parquetRows) :
  released_once (RowsParquet c) ->
  released_once (RowsParquet (snd (FileCursor.fail c))).
Proof.
  intros H. pose proof (released_once_Close (RowsParquet c) H) as H'.
  unfold FileCursor.fail. simpl in *.
  destruct (FileCursor.Close c). exact H'.
Qed.

Lemma file_pop_released (c : FileCursor.parquetRows) :
  released_once (RowsParquet c) ->
  released_once (RowsParquet (snd (FileCursor.pop c))).
Proof.
  intros H. unfold FileCursor.pop.
  destruct (_ !! _); [exact H|apply file_fail_released; exact H].
Qed.

Lemma released_once_Next (r : Rows) :
  released_once r -> released_once (snd (Rows_Next r)).
Proof.
  destruct r as [c|c]; intros H; simpl.
  - destruct (StreamCursor.Next c) as [x c'] eqn:E. simpl.
    change c' with (snd (x, c')). rewrite <- E. clear E.
    unfold StreamCursor.Next.
    destruct (StreamCursor.closed c); [exact H|].
    destruct (StreamCursor.current c).
    { apply stream_read_row_released; exact H. }
    destruct (StreamCursor.request _) as [| |b rest].
    + exact H.
    + apply stream_fail_released; exact H.
    + apply stream_read_row_released; exact H.
  - destruct (FileCursor.Next c) as [x c'] eqn:E. simpl.
    change c' with (snd (x, c')). rewrite <- E. clear E.
    unfold FileCursor.Next.
    destruct (FileCursor.closed c); [exact H|].
    destruct (FileCursor.needNewBuffer c); [|apply file_pop_released; exact H].
    destruct (FileCursor.ReadRows _ _) as [[[|r rs] rd]|].
    + exact H.
    + apply file_pop_released; exact H.
    + apply file_fail_released; exact H.
Qed.

Lemma released_once_do_calls (ks : list call) (r : Rows) :
  released_once r -> released_once (do_calls ks r).
Proof.
  unfold do_calls. revert r.
  induction ks as [|k ks IH]; simpl; intros r H; [exact H|].
  apply IH. destruct k; simpl;
    auto using released_once_Next, released_once_Close.
Qed.

Lemma PrepareRows_released_once (d : DriverType) (res : LocalResult)
    (buf : bytes) (bufSize : Z) (useUnsafe : bool) (r : Rows) :
  fst (PrepareRows d res buf bufSize useUnsafe) = Ok r ->
  Rows_closed r = false /\ released_once r.
Proof.
  unfold PrepareRows, released_once.
  destruct (d =? ARROW);
    [destruct (ipc_NewFileReader buf)|destruct (d =? PARQUET)];
    simpl; intros [= <-]; simpl; auto.
Qed.

(** C3: once [Close] has been called on a cursor of either kind, [Next]
    reports the closed cursor, whatever calls were made in between, and
    leaves the cursor as it is. *)
Theorem Next_after_Close (r : Rows) (ks : list call) :
  Rows_Next (do_calls ks (snd (Rows_Close r)))
  = (UseAfterClose, snd (Rows_Close r)).
Proof.
  rewrite do_calls_closed by apply Rows_Close_closed.
  apply Rows_Next_closed, Rows_Close_closed.
Qed.

(** C4: on a cursor of either kind, in whatever state a sequence of calls
    has left it, [Close] returns no error; if the cursor was open nothing
    had been released and the call releases the reader and the result
    buffer; a second call changes nothing; each resource has then been
    released exactly once. *)
Theorem Close_idempotent (d : DriverType) (res : LocalResult) (buf : bytes)
    (bufSize : Z) (useUnsafe : bool) (r0 : Rows) (ks : list call) :
  fst (PrepareRows d res buf bufSize useUnsafe) = Ok r0 ->
  let r := do_calls ks r0 in
  let r1 := snd (Rows_Close r) in
  fst (Rows_Close r) = None
  /\ (Rows_closed r = false -> Rows_releases r = (0%nat, 0%nat))
  /\ (Rows_closed r = true -> r1 = r)
  /\ Rows_releases r1 = (1%nat, 1%nat)
  /\ Rows_Close r1 = (None, r1).
Proof.
  intros H r r1. apply PrepareRows_released_once in H as [_ H].
  apply (released_once_do_calls ks) in H. fold r in H.
  pose proof (released_once_Close r H) as H1. fold r1 in H1.
  pose proof (Rows_Close_closed r) as Hc. fold r1 in Hc.
  split; [apply Rows_Close_ok|]. split; [|split; [|split]].
  - intros E. unfold released_once in H. rewrite E in H. exact H.
  - intros E. unfold r1. rewrite Rows_Close_noop by exact E. reflexivity.
  - unfold released_once in H1. rewrite Hc in H1. exact H1.
  - apply Rows_Close_noop, Hc.
Qed.

(** ** Iterating a streaming cursor *)

Ltac stream_fields :=
  unfold StreamCursor.set_position, StreamCursor.set_exhausted in *;
  cbn [StreamCursor.localResult StreamCursor.reader StreamCursor.curRecord
       StreamCursor.curRow StreamCursor.exhausted StreamCursor.closed
       StreamCursor.readerReleases StreamCursor.resultReleases
       StreamCursor.set_position StreamCursor.set_exhausted
       ipc_schema ipc_batches negb fst snd] in *.

Lemma run_app {S R} (step : S -> R * S) (n m : nat) (s : S) :
  run step (n + m) s
  = let (r1, s1) := run step n s in
    let (r2, s2) := run step m s1 in ((r1 ++ r2)%list, s2).
Proof.
  revert s. induction n as [|n IH]; simpl; intros s.
  - destruct (run step m s); reflexivity.
  - destruct (step s) as [r s']. rewrite IH.
    destruct (run step n s') as [r1 s1].
    destruct (run step m s1); reflexivity.
Qed.

Lemma run_first {S R} (step : S -> R * S) (n : nat) (s s' : S) :
  step s = step s' -> run step (Datatypes.S n) s = run step (Datatypes.S n) s'.
Proof. intros E. cbn [run]. rewrite E. reflexivity. Qed.

Lemma batch_row_wf (ncols : nat) (b : batch) (i : nat) :
  StreamCursor.wf_batch ncols b = true -> (i < numRows b)%nat ->
  StreamCursor.batch_row b i = Some (StreamCursor.row_at b i).
Proof.
  unfold StreamCursor.wf_batch, StreamCursor.batch_row, StreamCursor.row_at.
  intros Hwf Hi. apply andb_true_iff in Hwf as [_ Hcols].
  apply mapM_Some_2.
  induction (columns b) as [|col cols IH]; simpl in *; constructor.
  - apply andb_true_iff in Hcols as [Hl _]. apply Nat.eqb_eq in Hl.
    rewrite nth_lookup.
    destruct (lookup_lt_is_Some_2 col i) as [v ->]; [lia|reflexivity].
  - apply IH. apply andb_true_iff in Hcols as [_ ?]. assumption.
Qed.

Lemma wf_batch_width (ncols : nat) (b : batch) :
  StreamCursor.wf_batch ncols b = true ->
  (length (columns b) =? ncols)%nat = true.
Proof.
  unfold StreamCursor.wf_batch. intros H.
  apply andb_true_iff in H as [H _]. exact H.
Qed.

(** One call on a loaded batch that is not exhausted. *)
Lemma stream_Next_loaded lr schema bs b i ex rr br :
  StreamCursor.wf_batch (length schema) b = true -> (i < numRows b)%nat ->
  StreamCursor.Next
    (StreamCursor.mkArrowRows lr (mkIpcFileReader schema bs) (Some b) i
       ex false rr br)
  = (NextRow (StreamCursor.row_at b i),
     StreamCursor.mkArrowRows lr (mkIpcFileReader schema bs) (Some b) (S i)
       ex false rr br).
Proof.
  intros Hwf Hi. pose proof (wf_batch_width _ _ Hwf) as Hw.
  unfold StreamCursor.Next, StreamCursor.current, StreamCursor.read_row.
  stream_fields. apply Nat.ltb_lt in Hi as Hi'. rewrite !Hi', Hw.
  stream_fields. rewrite (batch_row_wf _ _ _ Hwf Hi). reflexivity.
Qed.

(** The calls that deliver the rest of the loaded batch. *)
Lemma stream_read_rest lr schema bs b ex rr br :
  StreamCursor.wf_batch (length schema) b = true ->
  forall n i, (i + n = numRows b)%nat ->
  run StreamCursor.Next n
    (StreamCursor.mkArrowRows lr (mkIpcFileReader schema bs) (Some b) i
       ex false rr br)
  = (map NextRow (map (StreamCursor.row_at b) (seq i n)),
     StreamCursor.mkArrowRows lr (mkIpcFileReader schema bs) (Some b)
       (numRows b) ex false rr br).
Proof.
  intros Hwf. induction n as [|n IH]; intros i Hi.
  - simpl. replace i with (numRows b) by lia. reflexivity.
  - cbn [run]. rewrite stream_Next_loaded by (auto; lia).
    rewrite (IH (S i)) by lia. reflexivity.
Qed.

(** After the last batch every call reports the end of the data. *)
Lemma stream_tail lr schema ob i rr br (k : nat) :
  forall ex,
  StreamCursor.current
    (StreamCursor.mkArrowRows lr (mkIpcFileReader schema []) ob i
       ex false rr br) = None ->
  fst (run StreamCursor.Next k
         (StreamCursor.mkArrowRows lr (mkIpcFileReader schema []) ob i
            ex false rr br))
  = replicate k EndOfData.
Proof.
  induction k as [|k IH]; intros ex Hc; [reflexivity|].
  assert (E : StreamCursor.Next
                (StreamCursor.mkArrowRows lr (mkIpcFileReader schema []) ob i
                   ex false rr br)
              = (EndOfData,
                 StreamCursor.mkArrowRows lr (mkIpcFileReader schema []) ob i
                   true false rr br)).
  { unfold StreamCursor.Next. rewrite Hc. reflexivity. }
  cbn [run]. rewrite E. specialize (IH true Hc).
  destruct (run StreamCursor.Next k _) as [rs c']. cbn [fst] in *.
  rewrite IH. reflexivity.
Qed.

(** One call when no batch is loaded, or the loaded one is exhausted, and
    the container has a further batch with rows. *)
Lemma stream_Next_load lr schema b rest ob i ex rr br :
  StreamCursor.wf_batch (length schema) b = true ->
  (0 < numRows b)%nat ->
  StreamCursor.current
    (StreamCursor.mkArrowRows lr (mkIpcFileReader schema (Some b :: rest))
       ob i ex false rr br) = None ->
  StreamCursor.Next
    (StreamCursor.mkArrowRows lr (mkIpcFileReader schema (Some b :: rest))
       ob i ex false rr br)
  = (NextRow (StreamCursor.row_at b 0),
     StreamCursor.mkArrowRows lr (mkIpcFileReader schema rest) (Some b) 1
       ex false rr br).
Proof.
  intros Hwf Hpos Hc. pose proof (wf_batch_width _ _ Hwf) as Hw.
  unfold StreamCursor.Next. rewrite Hc. stream_fields.
  cbn [StreamCursor.request].
  replace (numRows b =? 0)%nat with false
    by (symmetry; apply Nat.eqb_neq; lia).
  unfold StreamCursor.read_row. stream_fields.
  apply Nat.ltb_lt in Hpos as Hpos'. rewrite Hpos', Hw. stream_fields.
  rewrite (batch_row_wf _ _ 0%nat Hwf Hpos). reflexivity.
Qed.

Lemma request_wf (ncols : nat) (bs : list (option batch)) :
  forallb (fun ob => from_option (StreamCursor.wf_batch ncols) false ob) bs
  = true ->
  StreamCursor.request bs <> StreamCursor.CorruptBatch.
Proof.
  induction bs as [|[b|] rest IH]; cbn [forallb from_option StreamCursor.request];
    intros H; [discriminate| |discriminate].
  apply andb_true_iff in H as [_ H].
  destruct (numRows b =? 0)%nat; [auto|discriminate].
Qed.

(** A batch without rows is passed over. *)
Lemma stream_Next_skip lr schema b rest ob i ex rr br :
  numRows b = 0%nat ->
  StreamCursor.request rest <> StreamCursor.CorruptBatch ->
  StreamCursor.current
    (StreamCursor.mkArrowRows lr (mkIpcFileReader schema (Some b :: rest))
       ob i ex false rr br) = None ->
  StreamCursor.Next
    (StreamCursor.mkArrowRows lr (mkIpcFileReader schema (Some b :: rest))
       ob i ex false rr br)
  = StreamCursor.Next
      (StreamCursor.mkArrowRows lr (mkIpcFileReader schema rest)
         ob i ex false rr br).
Proof.
  intros Hn Hreq Hc. unfold StreamCursor.Next.
  change (StreamCursor.current
            (StreamCursor.mkArrowRows lr (mkIpcFileReader schema rest)
               ob i ex false rr br))
    with (StreamCursor.current
            (StreamCursor.mkArrowRows lr
               (mkIpcFileReader schema (Some b :: rest)) ob i ex false rr br)).
  rewrite Hc. stream_fields. cbn [StreamCursor.request]. rewrite Hn.
  cbn [Nat.eqb].
  destruct (StreamCursor.request rest); [reflexivity|contradiction|reflexivity].
Qed.

Lemma rows_of_batch_S (b : batch) (m : nat) :
  numRows b = S m ->
  StreamCursor.rows_of_batch b
  = StreamCursor.row_at b 0 :: map (StreamCursor.row_at b) (seq 1 m).
Proof. unfold StreamCursor.rows_of_batch. intros ->. reflexivity. Qed.

Lemma rows_of_batch_0 (b : batch) :
  numRows b = 0%nat -> StreamCursor.rows_of_batch b = [].
Proof. unfold StreamCursor.rows_of_batch. intros ->. reflexivity. Qed.

Lemma stream_drain lr schema (bs : list (option batch)) :
  StreamCursor.well_formed (mkIpcFileReader schema bs) = true ->
  forall ob i ex rr br k,
  StreamCursor.current
    (StreamCursor.mkArrowRows lr (mkIpcFileReader schema bs) ob i
       ex false rr br) = None ->
  fst (run StreamCursor.Next
         (length (StreamCursor.rows_of (mkIpcFileReader schema bs)) + k)
         (StreamCursor.mkArrowRows lr (mkIpcFileReader schema bs) ob i
            ex false rr br))
  = (map NextRow (StreamCursor.rows_of (mkIpcFileReader schema bs))
     ++ replicate k EndOfData)%list.
Proof.
  unfold StreamCursor.well_formed. cbn [ipc_schema ipc_batches].
  induction bs as [|[b|] rest IH]; intros Hwf ob i ex rr br k Hc.
  - apply stream_tail. exact Hc.
  - cbn [forallb from_option] in Hwf.
    apply andb_true_iff in Hwf as [Hb Hrest].
    change (StreamCursor.rows_of (mkIpcFileReader schema (Some b :: rest)))
      with (StreamCursor.rows_of_batch b
            ++ StreamCursor.rows_of (mkIpcFileReader schema rest))%list.
    set (tl := StreamCursor.rows_of (mkIpcFileReader schema rest)) in *.
    destruct (numRows b) as [|m] eqn:Hn.
    + rewrite (rows_of_batch_0 b Hn). cbn [app].
      specialize (IH Hrest ob i ex rr br k Hc).
      destruct (length tl + k)%nat as [|n] eqn:En; [exact IH|].
      rewrite (run_first _ _ _ _
                 (stream_Next_skip lr schema b rest ob i ex rr br Hn
                    (request_wf _ _ Hrest) Hc)).
      exact IH.
    + rewrite (rows_of_batch_S b m Hn). cbn [app length map].
      rewrite length_app, length_map, length_seq.
      replace (S (m + length tl) + k)%nat with (S (m + (length tl + k)))%nat
        by lia.
      cbn [run].
      rewrite (stream_Next_load lr schema b rest ob i ex rr br Hb) by
        (assumption || lia).
      rewrite run_app.
      rewrite (stream_read_rest lr schema rest b ex rr br Hb m 1%nat) by lia.
      specialize (IH Hrest (Some b) (numRows b) ex rr br k).
      destruct (run StreamCursor.Next (length tl + k) _) as [rs c'].
      cbn [fst] in *. rewrite IH.
      * rewrite map_app, <- app_assoc. reflexivity.
      * unfold StreamCursor.current. stream_fields.
        rewrite Nat.ltb_irrefl. reflexivity.
  - discriminate.
Qed.

Lemma run_Rows_Next_arrow (n : nat) (c : StreamCursor.arrowRows) :
  run Rows_Next n (RowsArrow c)
  = (fst (run StreamCursor.Next n c),
     RowsArrow (snd (run StreamCursor.Next n c))).
Proof.
  revert c. induction n as [|n IH]; intros c; [reflexivity|].
  cbn [run Rows_Next]. destruct (StreamCursor.Next c) as [x c'].
  rewrite IH. destruct (run StreamCursor.Next n c'); reflexivity.
Qed.

Lemma length_rows_of_batch (b : batch) :
  length (StreamCursor.rows_of_batch b) = numRows b.
Proof.
  unfold StreamCursor.rows_of_batch. rewrite length_map, length_seq.
  reflexivity.
Qed.

Lemma length_stream_rows_of (rd : ipcFileReader) :
  length (StreamCursor.rows_of rd)
  = sum_list (map (fun ob => from_option numRows 0%nat ob) (ipc_batches rd)).
Proof.
  unfold StreamCursor.rows_of.
  induction (ipc_batches rd) as [|[b|] bs IH]; simpl; [reflexivity| |exact IH].
  rewrite length_app, length_rows_of_batch, IH. reflexivity.
Qed.

(** C1: on a well-formed streaming buffer holding N rows, the first N calls
    of [Next] deliver the rows of the container in its order, each once,
    and call N+1 and every later call report the end of the data. *)
Theorem stream_Next_exactly_N (res : LocalResult) (buf : bytes) (bufSize : Z)
    (useUnsafe : bool) (rd : ipcFileReader) (k : nat) :
  ipc_NewFileReader buf = Ok rd ->
  StreamCursor.well_formed rd = true ->
  exists r0,
    fst (PrepareRows ARROW res buf bufSize useUnsafe) = Ok r0
    /\ length (StreamCursor.rows_of rd)
       = sum_list (map (fun ob => from_option numRows 0%nat ob)
                       (ipc_batches rd))
    /\ fst (run Rows_Next (length (StreamCursor.rows_of rd) + k) r0)
       = (map NextRow (StreamCursor.rows_of rd) ++ replicate k EndOfData)%list.
Proof.
  intros Hopen Hwf. unfold PrepareRows. cbn [Z.eqb ARROW]. rewrite Hopen.
  eexists. split; [reflexivity|]. split; [apply length_stream_rows_of|].
  rewrite run_Rows_Next_arrow. cbn [fst]. destruct rd as [schema bs].
  apply stream_drain; [exact Hwf|reflexivity].
Qed.

(** ** Iterating a file cursor *)














(** ** Connection strings *)

Lemma Split_nonempty (s : string) (sep : ascii) : gostrings.Split s sep <> [].
Proof.
  destruct s as [|a s]; simpl; [discriminate|].
  destruct (Ascii.eqb a sep); [discriminate|].
  destruct (gostrings.Split s sep); discriminate.
Qed.

Lemma Split_app (s t : string) (sep : ascii) :
  gostrings.Split (s ++ String sep t)%string sep
  = (gostrings.Split s sep ++ gostrings.Split t sep)%list.
Proof.
  induction s as [|a s IH]; simpl.
  - rewrite Ascii.eqb_refl. reflexivity.
  - destruct (Ascii.eqb a sep); rewrite IH; [reflexivity|].
    pose proof (Split_nonempty s sep).
    destruct (gostrings.Split s sep); [contradiction|reflexivity].
Qed.

Lemma Split_no_sep (s : string) (sep : ascii) :
  gostrings.Contains s sep = false -> gostrings.Split s sep = [s].
Proof.
  induction s as [|a s IH]; simpl; [reflexivity|].
  intros H. apply orb_false_iff in H as [-> H]. rewrite (IH H). reflexivity.
Qed.

Lemma SplitN2_no_sep (s : string) (sep : ascii) :
  gostrings.Contains s sep = false -> gostrings.SplitN2 s sep = [s].
Proof.
  induction s as [|a s IH]; simpl; [reflexivity|].
  intros H. apply orb_false_iff in H as [-> H]. rewrite (IH H). reflexivity.
Qed.

Lemma SplitN2_cut (k v : string) (sep : ascii) :
  gostrings.Contains k sep = false ->
  gostrings.SplitN2 (k ++ String sep v)%string sep = [k; v].
Proof.
  induction k as [|a k IH]; simpl.
  - rewrite Ascii.eqb_refl. reflexivity.
  - intros H. apply orb_false_iff in H as [-> H]. rewrite (IH H). reflexivity.
Qed.

Lemma SplitN2_sep (s : string) (sep : ascii) :
  gostrings.Contains s sep = true ->
  exists k v, gostrings.SplitN2 s sep = [k; v]
              /\ s = (k ++ String sep v)%string
              /\ gostrings.Contains k sep = false.
Proof.
  induction s as [|a s IH]; simpl; [discriminate|].
  destruct (Ascii.eqb_spec a sep) as [->|Hne]; simpl.
  - intros _. exists EmptyString, s. auto.
  - intros H. destruct (IH H) as (k & v & E & -> & Hk).
    exists (String a k), v. rewrite E. simpl.
    destruct (Ascii.eqb_spec a sep); [contradiction|]. auto.
Qed.

Lemma loop_step_ok (kv k v : string) (kvs : list string)
    (ret : gmap string string) :
  gostrings.SplitN2 kv "=" = [k; v] ->
  parseConnectStr_loop (kv :: kvs) ret
  = parseConnectStr_loop kvs (<[TrimSpace k := TrimSpace v]> ret).
Proof. intros E. cbn [parseConnectStr_loop]. rewrite E. reflexivity. Qed.

Lemma loop_step_err (kv : string) (kvs : list string)
    (ret : gmap string string) :
  gostrings.Contains kv "=" = false ->
  parseConnectStr_loop (kv :: kvs) ret
  = Err (Errorf (String.append
                   "invalid format for connection string, str: " kv)).
Proof.
  intros H. cbn [parseConnectStr_loop].
  rewrite (SplitN2_no_sep _ _ H). reflexivity.
Qed.

Lemma loop_find (kvs : list string) :
  forall ret,
  parseConnectStr_loop kvs ret
  = match find (fun kv => negb (gostrings.Contains kv "=")) kvs with
    | Some kv =>
        Err (Errorf (String.append
                       "invalid format for connection string, str: " kv))
    | None => parseConnectStr_loop kvs ret
    end.
Proof.
  induction kvs as [|kv kvs IH]; intros ret; [reflexivity|].
  cbn [find]. destruct (gostrings.Contains kv "=") eqn:Hc; cbn [negb].
  - destruct (SplitN2_sep _ _ Hc) as (k & v & E & _ & _).
    rewrite !(loop_step_ok _ _ _ _ _ E).
    rewrite IH at 1. destruct (find _ kvs); reflexivity.
  - apply loop_step_err. exact Hc.
Qed.

Lemma loop_no_find (kvs : list string) :
  forall ret,
  find (fun kv => negb (gostrings.Contains kv "=")) kvs = None ->
  exists m, parseConnectStr_loop kvs ret = Ok m.
Proof.
  induction kvs as [|kv kvs IH]; intros ret; [eauto|].
  cbn [find]. destruct (gostrings.Contains kv "=") eqn:Hc; cbn [negb];
    [|discriminate].
  destruct (SplitN2_sep _ _ Hc) as (k & v & E & _ & _).
  rewrite (loop_step_ok _ _ _ _ _ E). apply IH.
Qed.

Lemma loop_keeps (kvs : list string) :
  forall ret m key,
  parseConnectStr_loop kvs ret = Ok m ->
  is_Some (ret !! key) -> is_Some (m !! key).
Proof.
  induction kvs as [|kv kvs IH]; intros ret m key; cbn [parseConnectStr_loop].
  - intros [= <-]. auto.
  - destruct (gostrings.SplitN2 kv "=") as [|k [|v [|? ?]]]; try discriminate.
    intros H Hk. apply (IH _ _ _ H).
    destruct (decide (TrimSpace k = key)) as [->|Hne].
    + rewrite lookup_insert_eq. eauto.
    + rewrite lookup_insert_ne by exact Hne. exact Hk.
Qed.

Lemma loop_app (l1 l2 : list string) :
  forall ret,
  parseConnectStr_loop (l1 ++ l2) ret
  = match parseConnectStr_loop l1 ret with
    | Ok m => parseConnectStr_loop l2 m
    | Err e => Err e
    end.
Proof.
  induction l1 as [|kv l1 IH]; intros ret; [reflexivity|].
  cbn [app parseConnectStr_loop].
  destruct (gostrings.SplitN2 kv "=") as [|k [|v [|? ?]]]; try reflexivity.
  apply IH.
Qed.

Lemma loop_from_empty (kvs : list string) :
  forall ret,
  parseConnectStr_loop kvs ret
  = match parseConnectStr_loop kvs ∅ with
    | Ok m => Ok (m ∪ ret)
    | Err e => Err e
    end.
Proof.
  induction kvs as [|kv kvs IH]; intros ret; cbn [parseConnectStr_loop].
  - rewrite (left_id_L ∅ (∪)). reflexivity.
  - destruct (gostrings.SplitN2 kv "=") as [|k [|v [|? ?]]]; try reflexivity.
    rewrite (IH (<[TrimSpace k:=TrimSpace v]> ret)).
    rewrite (IH (<[TrimSpace k:=TrimSpace v]> ∅)).
    destruct (parseConnectStr_loop kvs ∅) as [m|e]; [|reflexivity].
    rewrite insert_empty, (insert_union_singleton_l ret).
    rewrite (assoc_L (∪)). reflexivity.
Qed.

Lemma length_append_sep (s t : string) (sep : ascii) :
  (String.length (s ++ String sep t)%string =? 0)%nat = false.
Proof. destruct s; reflexivity. Qed.

Lemma length_nonempty (s : string) :
  s <> EmptyString -> (String.length s =? 0)%nat = false.
Proof. destruct s; [contradiction|reflexivity]. Qed.

(** X1: the empty string is the only connection string that parses to the
    empty option map. *)
Theorem parseConnectStr_empty (str : string) :
  parseConnectStr str = Ok ∅ <-> str = EmptyString.
Proof.
  split; [|intros ->; reflexivity].
  unfold parseConnectStr. destruct str as [|a str]; [reflexivity|].
  cbn [String.length Nat.eqb].
  pose proof (Split_nonempty (String a str) ";") as Hne.
  destruct (gostrings.Split (String a str) ";") as [|kv kvs]; [contradiction|].
  cbn [parseConnectStr_loop].
  destruct (gostrings.SplitN2 kv "=") as [|k [|v [|? ?]]]; try discriminate.
  intros H. exfalso.
  assert (Hs : is_Some ((∅ : gmap string string) !! TrimSpace k)).
  { apply (loop_keeps _ _ _ _ H). rewrite lookup_insert_eq. eauto. }
  rewrite lookup_empty in Hs. destruct Hs as [? ?]. discriminate.
Qed.

(** X2: a connection string is refused exactly when it is not empty and one
    of its segments between semicolons has no equals sign; the error names
    the first such segment. *)
Theorem parseConnectStr_error (str : string) (e : error) :
  parseConnectStr str = Err e <->
  str <> EmptyString
  /\ exists kv,
       find (fun kv => negb (gostrings.Contains kv "="))
            (gostrings.Split str ";") = Some kv
       /\ e = Errorf (String.append
                        "invalid format for connection string, str: " kv).
Proof.
  unfold parseConnectStr. destruct str as [|a str].
  - cbn [String.length Nat.eqb]. split; [discriminate|]. intros [H _].
    contradiction.
  - cbn [String.length Nat.eqb]. rewrite loop_find.
    destruct (find _ _) as [kv|] eqn:Ef.
    + split.
      * intros [= <-]. split; [discriminate|]. eauto.
      * intros (_ & kv' & [= <-] & ->). reflexivity.
    + destruct (loop_no_find _ ∅ Ef) as [m ->]. split; [discriminate|].
      intros (_ & kv & Hkv & _). discriminate.
Qed.

(** X3: a connection string that ends with a semicolon is always refused,
    whatever precedes the semicolon. *)
Theorem parseConnectStr_trailing_semicolon (str : string) :
  is_ok (parseConnectStr (str ++ ";")%string) = false.
Proof.
  unfold parseConnectStr. rewrite length_append_sep, Split_app, loop_app.
  destruct (parseConnectStr_loop _ ∅); reflexivity.
Qed.

(** X4: joining two non-empty connection strings with a semicolon merges
    their options, the right string's settings taking precedence; the
    joined string is refused when either part is, the left part's error
    coming first. *)
Theorem parseConnectStr_join (a b : string) :
  a <> EmptyString -> b <> EmptyString ->
  parseConnectStr (a ++ String ";" b)%string
  = match parseConnectStr a with
    | Err e => Err e
    | Ok ma =>
        match parseConnectStr b with
        | Err e => Err e
        | Ok mb => Ok (mb ∪ ma)
        end
    end.
Proof.
  intros Ha Hb. unfold parseConnectStr.
  rewrite length_append_sep, (length_nonempty a Ha), (length_nonempty b Hb).
  rewrite Split_app, loop_app.
  destruct (parseConnectStr_loop (gostrings.Split a ";") ∅) as [ma|e];
    [|reflexivity].
  apply loop_from_empty.
Qed.

(** X5: a string [k=v] without semicolon, whose key holds no equals sign,
    parses to the single option that maps the trimmed key to the trimmed
    value; the value may itself hold equals signs. *)
Theorem parseConnectStr_single (k v : string) :
  gostrings.Contains k ";" = false ->
  gostrings.Contains k "=" = false ->
  gostrings.Contains v ";" = false ->
  parseConnectStr (k ++ String "=" v)%string
  = Ok {[ TrimSpace k := TrimSpace v ]}.
Proof.
  intros Hk1 Hk2 Hv. unfold parseConnectStr. rewrite length_append_sep.
  rewrite Split_no_sep.
  - rewrite (loop_step_ok _ k v) by (apply SplitN2_cut; exact Hk2).
    cbn [parseConnectStr_loop]. rewrite insert_empty. reflexivity.
  - clear Hk2. induction k as [|c k IH]; simpl in *.
    + exact Hv.
    + apply orb_false_iff in Hk1 as [-> Hk1]. simpl. auto.
Qed.

(** ** Connectors and connections *)

(** X6: [NewConnect] reads the five option keys it knows and nothing else:
    two option maps that agree on them give the same outcome. *)
Theorem NewConnect_known_keys (opts opts' : gmap string string) :
  Forall (fun key => opts !! key = opts' !! key)
         [sessionOptionKey; driverTypeKey; driverBufferSizeKey;
          useUnsafeStringReaderKey; udfPathOptionKey] ->
  NewConnect opts = NewConnect opts'.
Proof.
  intros H. repeat (apply Forall_cons_1 in H as [? H]).
  unfold NewConnect.
  repeat match goal with E : opts !! _ = opts' !! _ |- _ => rewrite E; clear E end.
  reflexivity.
Qed.

(** X7: [NewConnect] fails exactly when a session path is configured and
    the session cannot be created there, and then with the session's own
    error; no other option can make it fail. *)
Theorem NewConnect_error (opts : gmap string string) (e : error) :
  NewConnect opts = Err e <->
  exists sessionPath,
    opts !! sessionOptionKey = Some sessionPath
    /\ NewSession sessionPath = Err e.
Proof.
  unfold NewConnect.
  destruct (opts !! sessionOptionKey) as [p|].
  - destruct (NewSession p) as [s|e'] eqn:Es.
    + split; [discriminate|]. intros (p' & [= <-] & H). congruence.
    + split.
      * intros [= <-]. eauto.
      * intros (p' & [= <-] & H). congruence.
  - split; [discriminate|]. intros (p' & H & _). discriminate.
Qed.

(** X8: a connection made from a connector built by [NewConnect] sends its
    queries to the session created at the configured path, and to the
    session-less engine entry point when no session is configured; its
    buffer size, unsafe-reader flag and UDF path are the connector's. *)
Theorem Connect_query_function (opts : gmap string string) (c : connector)
    (cc : conn) :
  NewConnect opts = Ok c ->
  Connect c = Ok cc ->
  match opts !! sessionOptionKey with
  | Some sessionPath =>
      exists s, NewSession sessionPath = Ok s
                /\ session cc = Some s
                /\ QueryFun cc = Session_Query s
  | None => session cc = None /\ QueryFun cc = chdb_Query
  end
  /\ bufferSize cc = c_bufferSize c
  /\ useUnsafe cc = c_useUnsafe c
  /\ udfPath cc = c_udfPath c.
Proof.
  unfold NewConnect, Connect. intros Hn Hc.
  destruct (c_driverType c =? INVALID); [discriminate|].
  injection Hc as <-. cbn [session QueryFun bufferSize useUnsafe udfPath].
  split; [|auto].
  destruct (opts !! sessionOptionKey) as [p|].
  - destruct (NewSession p) as [s|e]; [|discriminate].
    injection Hn as <-. exists s. auto.
  - injection Hn as <-. auto.
Qed.

Lemma Open_inv (name : string) (cc : conn) :
  Open name = Ok cc ->
  exists opts c,
    parseConnectStr name = Ok opts /\ NewConnect opts = Ok c
    /\ Connect c = Ok cc.
Proof.
  unfold Open, OpenConnector.
  destruct (parseConnectStr name) as [opts|]; [|discriminate].
  destruct (NewConnect opts) as [c|] eqn:En; [|discriminate].
  eauto.
Qed.

(** X9: a connection that [Open] returns has the format ARROW or PARQUET,
    so the format name it passes to the engine is "Arrow" or "Parquet",
    never "Invalid" or the empty name; its buffer size is 512 unless the
    connection string sets [bufferSize]. *)
Theorem Open_format (name : string) (cc : conn) :
  Open name = Ok cc ->
  (driverType cc = ARROW /\ DriverType_String (driverType cc) = "Arrow"
   \/ driverType cc = PARQUET
      /\ DriverType_String (driverType cc) = "Parquet")
  /\ (forall opts, parseConnectStr name = Ok opts ->
        opts !! driverBufferSizeKey = None -> bufferSize cc = 512).
Proof.
  intros H. destruct (Open_inv _ _ H) as (opts & c & Hp & Hn & Hc).
  apply NewConnect_fields in Hn as [Hd Hb].
  unfold Connect in Hc.
  destruct (c_driverType c =? INVALID) eqn:Hi; [discriminate|].
  injection Hc as <-. cbn [driverType bufferSize].
  apply Z.eqb_neq in Hi. split.
  - rewrite Hd in *. destruct (opts !! driverTypeKey) as [s|]; [|auto].
    destruct (parseDriverType_cases s) as [[-> _]|[[-> _]|[? _]]];
      [auto|auto|contradiction].
  - intros opts' Hp' Hnone. rewrite Hp in Hp'. injection Hp' as <-.
    rewrite Hb, Hnone. reflexivity.
Qed.

(** X10: a connection string that parses and sets none of the five known
    options opens a connection with the defaults: ARROW, a buffer of 512
    rows, the safe string reader, no UDF path, no session and the
    session-less engine entry point. *)
Theorem Open_defaults (name : string) (opts : gmap string string) :
  parseConnectStr name = Ok opts ->
  Forall (fun key => opts !! key = None)
         [sessionOptionKey; driverTypeKey; driverBufferSizeKey;
          useUnsafeStringReaderKey; udfPathOptionKey] ->
  Open name
  = Ok {| udfPath := ""; driverType := ARROW; bufferSize := 512;
          useUnsafe := false; session := None; QueryFun := chdb_Query |}.
Proof.
  intros Hp H. repeat (apply Forall_cons_1 in H as [? H]).
  unfold Open, OpenConnector, NewConnect. rewrite Hp.
  repeat match goal with E : opts !! _ = None |- _ => rewrite E; clear E end.
  reflexivity.
Qed.

(** X11: the name [DriverType.String] gives a format is parsed back to that
    format by [parseDriverType], provided upper-casing maps the four names
    as it does on ASCII; a value that is no format has the empty name,
    which parses to INVALID. *)
Theorem parseDriverType_String (d : DriverType) :
  ToUpper "Arrow" = "ARROW" -> ToUpper "Parquet" = "PARQUET" ->
  ToUpper "Invalid" = "INVALID" -> ToUpper "" = "" ->
  parseDriverType (DriverType_String d)
  = if (d =? ARROW) || (d =? PARQUET) then d else INVALID.
Proof.
  intros Ha Hp Hi He. unfold parseDriverType, DriverType_String.
  destruct (Z.eqb_spec d ARROW) as [->|_]; [rewrite Ha; reflexivity|].
  destruct (Z.eqb_spec d PARQUET) as [->|_]; [rewrite Hp; reflexivity|].
  destruct (d =? INVALID); [rewrite Hi|rewrite He]; reflexivity.
Qed.

(** ** Arguments, queries and single rows *)

Lemma prepareValues_from (values : list Value) :
  forall n,
  map NamedValue_Value
      (imap (fun i value =>
               {| Ordinal := Z.of_nat (n + i); NamedValue_Value := value |})
            values) = values
  /\ map Ordinal
      (imap (fun i value =>
               {| Ordinal := Z.of_nat (n + i); NamedValue_Value := value |})
            values) = map Z.of_nat (seq n (length values)).
Proof.
  induction values as [|v values IH]; intros n; [split; reflexivity|].
  rewrite imap_cons. cbn [map length seq NamedValue_Value Ordinal].
  rewrite Nat.add_0_r.
  rewrite (imap_ext _ (fun i value =>
             {| Ordinal := Z.of_nat (S n + i); NamedValue_Value := value |}))
    by (intros i x _; cbn; do 2 f_equal; lia).
  destruct (IH (S n)) as [-> ->]. split; reflexivity.
Qed.

Lemma prepareValues_map (values : list Value) :
  map NamedValue_Value (prepareValues values) = values.
Proof. exact (proj1 (prepareValues_from values 0%nat)). Qed.

(** X12: [prepareValues] keeps the values and their order and numbers them
    from 0. *)
Theorem prepareValues_values (values : list Value) :
  map NamedValue_Value (prepareValues values) = values
  /\ map Ordinal (prepareValues values)
     = map Z.of_nat (seq 0 (length values)).
Proof. exact (prepareValues_from values 0%nat). Qed.

(** X13: the query text that [Query], [Exec] and [QueryRow] send for a list
    of values is the text itself when the list is empty, and otherwise the
    interpolation of exactly these values, in order. *)
Theorem compileArguments_prepareValues (query : string) (values : list Value) :
  compileArguments query (prepareValues values)
  = match values with
    | [] => Ok query
    | _ :: _ => Interpolate query values
    end.
Proof.
  unfold compileArguments. rewrite prepareValues_map.
  unfold prepareValues. rewrite length_imap.
  destruct values; reflexivity.
Qed.

(** X14: the cursor [QueryContext] returns is of the connection's format
    and is built on the buffer of the engine's result for the compiled
    query: an arrow cursor on the opened reader, or a parquet cursor with
    the connection's buffer size and unsafe-reader flag that still needs
    its first buffer. *)
Theorem QueryContext_rows (c : conn) (query : string) (args : list NamedValue)
    (rows : Rows) :
  QueryContext c query args = Ok rows ->
  exists q res buf,
    compileArguments query args = Ok q
    /\ QueryFun c q [DriverType_String (driverType c); udfPath c] = Ok res
    /\ Buf res = Some buf
    /\ match rows with
       | RowsArrow r =>
           driverType c = ARROW
           /\ ipc_NewFileReader buf = Ok (StreamCursor.reader r)
           /\ StreamCursor.localResult r = res
       | RowsParquet r =>
           driverType c = PARQUET
           /\ FileCursor.reader r = parquet_NewGenericReader buf
           /\ FileCursor.localResult r = res
           /\ FileCursor.bufferSize r = bufferSize c
           /\ FileCursor.useUnsafeStringReader r = useUnsafe c
           /\ FileCursor.needNewBuffer r = true
       end.
Proof.
  unfold QueryContext.
  destruct (compileArguments query args) as [q|]; [|discriminate].
  destruct (QueryFun c q _) as [res|] eqn:Eq; [|discriminate].
  destruct (Buf res) as [buf|] eqn:Eb; [|discriminate].
  unfold PrepareRows.
  destruct (Z.eqb_spec (driverType c) ARROW) as [Ea|_].
  - destruct (ipc_NewFileReader buf) as [rd|] eqn:Er; [|discriminate].
    cbn [fst]. intros [= <-]. exists q, res, buf. cbn. auto 10.
  - destruct (Z.eqb_spec (driverType c) PARQUET) as [Ep|_]; [|discriminate].
    cbn [fst]. intros [= <-]. exists q, res, buf. cbn. auto 10.
Qed.

(** X15: on a PARQUET connection [QueryContext] succeeds as soon as the
    arguments compile, the engine returns a result and its buffer is not
    nil: the bytes of the buffer are not examined. *)
Theorem QueryContext_parquet (c : conn) (query : string)
    (args : list NamedValue) :
  driverType c = PARQUET ->
  (is_ok (QueryContext c query args) = true <->
   exists q res buf,
     compileArguments query args = Ok q
     /\ QueryFun c q ["Parquet"; udfPath c] = Ok res
     /\ Buf res = Some buf).
Proof.
  intros Hd. unfold QueryContext, PrepareRows. rewrite Hd.
  change (DriverType_String PARQUET) with "Parquet".
  change (PARQUET =? ARROW) with false. change (PARQUET =? PARQUET) with true.
  cbn iota.
  destruct (compileArguments query args) as [q|].
  - destruct (QueryFun c q _) as [res|] eqn:Eq.
    + destruct (Buf res) as [buf|] eqn:Eb.
      * split; [intros _; exists q, res, buf; auto|reflexivity].
      * split; [discriminate|]. intros (? & ? & ? & [= <-] & H & Hb).
        rewrite Eq in H. injection H as <-. congruence.
    + split; [discriminate|]. intros (? & ? & ? & [= <-] & H & _).
      congruence.
  - split; [discriminate|]. intros (? & ? & ? & H & _). discriminate.
Qed.

Lemma foldl_snoc (dest acc : list Value) :
  foldl (fun vals v => vals ++ [v])%list acc dest = (acc ++ dest)%list.
Proof.
  revert acc. induction dest as [|v dest IH]; intros acc; cbn [foldl].
  - rewrite app_nil_r. reflexivity.
  - rewrite IH, <- app_assoc. reflexivity.
Qed.

(** X17: [Scan] on a row returned by [QueryRowContext] never calls [Next]
    on nil rows, whatever the rows' methods do; when the query had failed
    it returns the query's error and leaves the row as it is. *)
Theorem Scan_QueryRowContext (R_Next : Rows -> list Value -> option error * Rows)
    (R_Close : Rows -> option error * Rows) (c : conn) (query : string)
    (values dest : list Value) :
  let r := QueryRowContext c query values in
  exists out,
    Scan Rows R_Next R_Close r dest = Some out
    /\ forall e, QueryContext c query (prepareValues values) = Err e ->
                 out = (Some e, r).
Proof.
  unfold QueryRowContext, Scan.
  destruct (QueryContext c query (prepareValues values)) as [rows|e];
    cbn [sr_err sr_rows].
  - destruct (R_Next rows _) as [[e|] rows'].
    + eexists. split; [reflexivity|]. discriminate.
    + destruct (R_Close rows'). eexists. split; [reflexivity|]. discriminate.
  - eexists. split; [reflexivity|]. intros e' [= <-]. reflexivity.
Qed.

(** X18: on a row with rows and no deferred error, [Scan] hands the
    destinations to [Next] in their order; if [Next] fails, [Scan] returns
    its error and does not close the rows; otherwise it closes them and
    returns what [Close] returns. *)
Theorem Scan_rows (R : Type) (R_Next : R -> list Value -> option error * R)
    (R_Close : R -> option error * R) (r : singleRow R) (rows : R)
    (dest : list Value) :
  sr_err R r = None -> sr_rows R r = Some rows ->
  Scan R R_Next R_Close r dest
  = Some match R_Next rows dest with
         | (Some e, rows') =>
             (Some e, {| sr_err := None; sr_rows := Some rows' |})
         | (None, rows') =>
             (fst (R_Close rows'),
              {| sr_err := None; sr_rows := Some (snd (R_Close rows')) |})
         end.
Proof.
  intros He Hr. unfold Scan. rewrite He, Hr, foldl_snoc. cbn [app].
  destruct (R_Next rows dest) as [[e|] rows']; [reflexivity|].
  destruct (R_Close rows'); reflexivity.
Qed.

(** X19: [Open] fails in exactly three ways: the connection string is
    refused, the configured session cannot be created, or the connector is
    built but its [driverType] option names no format, which [Connect]
    reports as unsupported. *)
Theorem Open_error (name : string) (e : error) :
  Open name = Err e <->
  parseConnectStr name = Err e
  \/ exists opts,
       parseConnectStr name = Ok opts
       /\ (NewConnect opts = Err e
           \/ is_ok (NewConnect opts) = true
              /\ e = Errorf "DriverType not supported"
              /\ exists s, opts !! driverTypeKey = Some s
                           /\ parseDriverType s = INVALID).
Proof.
  unfold Open, OpenConnector.
  destruct (parseConnectStr name) as [opts|e0].
  - destruct (NewConnect opts) as [c|e1] eqn:En.
    + pose proof (NewConnect_fields _ _ En) as [Hd _].
      unfold Connect. destruct (Z.eqb_spec (c_driverType c) INVALID) as [Ei|Ni].
      * split.
        -- intros [= <-]. right. exists opts. split; [reflexivity|]. right.
           split; [rewrite En; reflexivity|]. split; [reflexivity|].
           rewrite Hd in Ei. destruct (opts !! driverTypeKey) as [s|];
             [eauto|discriminate].
        -- intros [H|(opts' & [= <-] & [H|(_ & -> & _)])];
             [discriminate|congruence|reflexivity].
      * split; [discriminate|].
        intros [H|(opts' & [= <-] & [H|(_ & _ & s & Hs & Hi)])];
          [discriminate|congruence|].
        rewrite Hd, Hs in Ni. contradiction.
    + split.
      * intros [= <-]. right. exists opts. auto.
      * intros [H|(opts' & [= <-] & [H|(H & _)])];
          [discriminate|congruence|rewrite En in H; discriminate].
  - split.
    + intros [= <-]. auto.
    + intros [[= <-]|(opts & H & _)]; [reflexivity|discriminate].
Qed.

End Driver.

(** * The definitions on the sample inputs *)

Example Atoi_examples :
  strconv.Atoi "512" = Ok 512
  /\ strconv.Atoi "+7" = Ok 7
  /\ strconv.Atoi "-3" = Ok (-3)
  /\ strconv.Atoi "0" = Ok 0
  /\ is_ok (strconv.Atoi "") = false
  /\ is_ok (strconv.Atoi "-") = false
  /\ is_ok (strconv.Atoi "12a") = false
  /\ is_ok (strconv.Atoi "1_000") = false
  /\ strconv.Atoi "9223372036854775807" = Ok 9223372036854775807
  /\ is_ok (strconv.Atoi "9223372036854775808") = false
  /\ strconv.Atoi "-9223372036854775808" = Ok (-9223372036854775808).
Proof. repeat split; reflexivity. Qed.

Example parseDriverType_examples :
  parseDriverType ToUpper_ascii "arrow" = ARROW
  /\ parseDriverType ToUpper_ascii "Parquet" = PARQUET
  /\ parseDriverType ToUpper_ascii "csv" = INVALID
  /\ parseDriverType ToUpper_ascii "" = INVALID.
Proof. repeat split; reflexivity. Qed.

Example stream_sample_run :
  run StreamCursor.Next 5
    (StreamCursor.mkArrowRows (mkLocalResult (Some [])) sample_stream None 0
       false false 0 0)
  = ([NextRow [VInt 1; VString "a"]; NextRow [VInt 2; VString "b"];
      NextRow [VInt 3; VString "c"]; EndOfData; EndOfData],
     StreamCursor.mkArrowRows (mkLocalResult (Some []))
       (mkIpcFileReader ["id"; "name"] [])
       (Some {| numRows := 1; columns := [[VInt 3]; [VString "c"]] |}) 1
       true false 0 0).
Proof. reflexivity. Qed.

Example file_sample_run :
  run FileCursor.Next 5
    (FileCursor.mkParquetRows (mkLocalResult (Some [])) sample_file 3 true
       false [] 0 false false 0 0 0)
  = ([NextRow [VInt 1]; NextRow [VInt 2]; NextRow [VInt 3]; NextRow [VInt 4];
      EndOfData],
     FileCursor.mkParquetRows (mkLocalResult (Some []))
       (mkParquetReader ["id"] []) 3 true false [[VInt 4]] 1 true false
       3 0 0).
Proof. reflexivity. Qed.

Example stream_corrupt_run :
  fst (run StreamCursor.Next 3
         (StreamCursor.mkArrowRows (mkLocalResult (Some []))
            (mkIpcFileReader ["id"]
               [Some {| numRows := 1; columns := [[VInt 1]] |}; None])
            None 0 false false 0 0))
  = [NextRow [VInt 1]; DecodeError; UseAfterClose].
Proof. reflexivity. Qed.

Example file_capacity_zero_run :
  fst (run FileCursor.Next 2
         (FileCursor.mkParquetRows (mkLocalResult (Some [])) sample_file 0
            true false [] 0 false false 0 0 0))
  = [EndOfData; EndOfData].
Proof. reflexivity. Qed.

Example NewConnect_sample :
  NewConnect ToUpper_ascii ToLower_ascii unit (fun _ => Ok tt)
    (<["driverType" := "parquet"]> (<["bufferSize" := "64"]>
       (<["useUnsafeStringReader" := "TRUE"]> ∅)))
  = Ok (mkConnector unit "" PARQUET 64 true None).
Proof. vm_compute. reflexivity. Qed.

(** * The theorems at concrete inputs *)

Lemma stream_Next_exactly_N_witness :
  let ipc := fun _ : bytes => Ok sample_stream in
  let pq := fun _ : bytes => sample_file in
  ipc [] = Ok sample_stream
  /\ StreamCursor.well_formed sample_stream = true
  /\ exists r0,
       fst (PrepareRows ipc pq ARROW (mkLocalResult (Some [])) [] 512 false)
       = Ok r0
       /\ length (StreamCursor.rows_of sample_stream)
          = sum_list (map (fun ob => from_option numRows 0%nat ob)
                          (ipc_batches sample_stream))
       /\ fst (run Rows_Next (length (StreamCursor.rows_of sample_stream) + 2)
                 r0)
          = (map NextRow (StreamCursor.rows_of sample_stream)
             ++ replicate 2 EndOfData)%list.
Proof.
  intros ipc pq. split; [reflexivity|]. split; [reflexivity|].
  apply (stream_Next_exactly_N ipc pq (mkLocalResult (Some [])) [] 512 false
           sample_stream 2); reflexivity.
Defined.


Lemma Close_idempotent_witness :
  let ipc := fun _ : bytes => Ok sample_stream in
  let pq := fun _ : bytes => sample_file in
  exists r0,
    fst (PrepareRows ipc pq PARQUET (mkLocalResult (Some [])) [] 3 false)
    = Ok r0
    /\ let r := do_calls [CallNext; CallClose; CallNext] r0 in
       let r1 := snd (Rows_Close r) in
       fst (Rows_Close r) = None
       /\ (Rows_closed r = false -> Rows_releases r = (0%nat, 0%nat))
       /\ (Rows_closed r = true -> r1 = r)
       /\ Rows_releases r1 = (1%nat, 1%nat)
       /\ Rows_Close r1 = (None, r1).
Proof.
  intros ipc pq. eexists. split; [reflexivity|].
  apply (Close_idempotent ipc pq PARQUET (mkLocalResult (Some [])) [] 3 false).
  reflexivity.
Defined.

Lemma PrepareRows_unsupported_witness :
  let ipc := fun _ : bytes => Ok sample_stream in
  let pq := fun _ : bytes => sample_file in
  INVALID <> ARROW
  /\ INVALID <> PARQUET
  /\ PrepareRows ipc pq INVALID (mkLocalResult (Some [])) [] 512 false
     = (Err (Errorf "Unsupported driver type"), []).
Proof.
  intros ipc pq.
  assert (Ha : INVALID <> ARROW) by discriminate.
  assert (Hp : INVALID <> PARQUET) by discriminate.
  split; [exact Ha|]. split; [exact Hp|].
  apply (PrepareRows_unsupported ipc pq INVALID); assumption.
Defined.

Lemma ExecContext_result_is_nil_witness :
  let ipc := fun _ : bytes => Ok sample_stream in
  let pq := fun _ : bytes => sample_file in
  let interpolate := fun (q : string) (_ : list Value) => Ok q in
  let c := mkConn unit "" ARROW 512 false None
             (fun _ _ => Ok (mkLocalResult None)) in
  QueryContext unit ipc pq interpolate c "SELECT 1" []
  = Err (Errorf "result is nil")
  /\ is_ok (ExecContext unit ipc pq interpolate c "SELECT 1" []) = true.
Proof.
  intros ipc pq interpolate c.
  destruct (ExecContext_result_is_nil unit ipc pq interpolate c "SELECT 1" [])
    as (Hnil & Hiff & _).
  assert (Hq : QueryContext unit ipc pq interpolate c "SELECT 1" []
               = Err (Errorf "result is nil")).
  { apply (Hnil "SELECT 1" (mkLocalResult None)); reflexivity. }
  split; [exact Hq|].
  apply Hiff. right. exists (Errorf "result is nil").
  split; [exact Hq|reflexivity].
Defined.

Lemma NewConnect_bufferSize_witness :
  let opts : gmap string string := <["bufferSize" := "-3"]> ∅ in
  exists c,
    NewConnect ToUpper_ascii ToLower_ascii unit (fun _ => Ok tt) opts = Ok c
    /\ strconv.minInt <= c_bufferSize unit c <= strconv.maxInt
    /\ (opts !! driverBufferSizeKey = None -> c_bufferSize unit c = 512)
    /\ (forall s e, opts !! driverBufferSizeKey = Some s ->
          strconv.Atoi s = Err e -> c_bufferSize unit c = 512)
    /\ (forall s sz, opts !! driverBufferSizeKey = Some s ->
          strconv.Atoi s = Ok sz -> c_bufferSize unit c = sz).
Proof.
  intros opts. exists (mkConnector unit "" ARROW (-3) false None).
  assert (H : NewConnect ToUpper_ascii ToLower_ascii unit (fun _ => Ok tt) opts
              = Ok (mkConnector unit "" ARROW (-3) false None))
    by (vm_compute; reflexivity).
  split; [exact H|].
  exact (NewConnect_bufferSize ToUpper_ascii ToLower_ascii unit
           (fun _ => Ok tt) opts _ H).
Defined.

(** With the option [bufferSize=0] the connector is built and its staging
    capacity is 0, which is not positive. *)
Lemma NewConnect_bufferSize_zero :
  exists c,
    NewConnect ToUpper_ascii ToLower_ascii unit (fun _ => Ok tt)
      (<["bufferSize" := "0"]> ∅) = Ok c
    /\ c_bufferSize unit c = 0
    /\ ~ 0 < c_bufferSize unit c.
Proof.
  exists (mkConnector unit "" ARROW 0 false None).
  split; [vm_compute; reflexivity|]. split; [reflexivity|].
  cbn [c_bufferSize]. lia.
Qed.

Lemma connected_driverType_witness :
  let opts : gmap string string := <["driverType" := "parquet"]> ∅ in
  let q : queryHandle := fun _ _ => Ok (mkLocalResult None) in
  exists c,
    NewConnect ToUpper_ascii ToLower_ascii unit (fun _ => Ok tt) opts = Ok c
    /\ (opts !! driverTypeKey = None -> c_driverType unit c = ARROW)
    /\ (forall s, opts !! driverTypeKey = Some s ->
          ToUpper_ascii s <> "ARROW" -> ToUpper_ascii s <> "PARQUET" ->
          c_driverType unit c = INVALID)
    /\ (c_driverType unit c = INVALID ->
          Connect unit q (fun _ => q) c
          = Err (Errorf "DriverType not supported"))
    /\ (forall cc, Connect unit q (fun _ => q) c = Ok cc ->
          driverType unit cc = c_driverType unit c
          /\ (driverType unit cc = ARROW \/ driverType unit cc = PARQUET)).
Proof.
  intros opts q. exists (mkConnector unit "" PARQUET 512 false None).
  assert (H : NewConnect ToUpper_ascii ToLower_ascii unit (fun _ => Ok tt) opts
              = Ok (mkConnector unit "" PARQUET 512 false None))
    by (vm_compute; reflexivity).
  split; [exact H|].
  exact (connected_driverType ToUpper_ascii ToLower_ascii unit
           (fun _ => Ok tt) q (fun _ => q) opts _ H).
Defined.

Lemma ExecContext_result_unsupported_witness :
  let ipc := fun _ : bytes => Ok sample_stream in
  let pq := fun _ : bytes => sample_file in
  let interpolate := fun (q : string) (_ : list Value) => Ok q in
  let c := mkConn unit "" PARQUET 512 false None
             (fun _ _ => Ok (mkLocalResult (Some []))) in
  exists r,
    ExecContext unit ipc pq interpolate c "INSERT INTO t VALUES (1)" [] = Ok r
    /\ LastInsertId r = (-1, Some (Errorf "does not support LastInsertId"))
    /\ RowsAffected r = (-1, Some (Errorf "does not support RowsAffected")).
Proof.
  intros ipc pq interpolate c. exists (mkExecResult None).
  assert (H : ExecContext unit ipc pq interpolate c
                "INSERT INTO t VALUES (1)" [] = Ok (mkExecResult None))
    by reflexivity.
  split; [exact H|].
  exact (ExecContext_result_unsupported unit ipc pq interpolate c _ [] _ H).
Defined.

(** * Connection strings and rows at concrete inputs *)

Example Split_examples :
  gostrings.Split "a=1;b=2" ";" = ["a=1"; "b=2"]
  /\ gostrings.Split "" ";" = [""]
  /\ gostrings.Split ";" ";" = [""; ""]
  /\ gostrings.Split "a;;b;" ";" = ["a"; ""; "b"; ""]
  /\ gostrings.SplitN2 "k=v=w" "=" = ["k"; "v=w"]
  /\ gostrings.SplitN2 "kv" "=" = ["kv"]
  /\ gostrings.SplitN2 "=" "=" = [""; ""]
  /\ TrimSpace_ascii "  a b  " = "a b"
  /\ TrimSpace_ascii "   " = "".
Proof. repeat split; reflexivity. Qed.

Example parseConnectStr_examples :
  parseConnectStr TrimSpace_ascii " driverType = parquet ;bufferSize=64"
  = Ok (<["bufferSize" := "64"]> (<["driverType" := "parquet"]> ∅))
  /\ parseConnectStr TrimSpace_ascii "a=1;a=2" = Ok (<["a" := "2"]> ∅)
  /\ parseConnectStr TrimSpace_ascii "a=1;b"
     = Err (Errorf "invalid format for connection string, str: b")
  /\ parseConnectStr TrimSpace_ascii "udfPath=/x=y" = Ok (<["udfPath" := "/x=y"]> ∅).
Proof. repeat split; vm_compute; reflexivity. Qed.

Example Open_examples :
  let q : queryHandle := fun _ _ => Ok (mkLocalResult None) in
  let open := Open ToUpper_ascii ToLower_ascii unit (fun _ => Ok tt) q
                (fun _ => q) TrimSpace_ascii in
  open "" = Ok (mkConn unit "" ARROW 512 false None q)
  /\ open "driverType=PARQUET;bufferSize=x;useUnsafeStringReader=True"
     = Ok (mkConn unit "" PARQUET 512 true None q)
  /\ open "session=/tmp/s;udfPath=/udf"
     = Ok (mkConn unit "/udf" ARROW 512 false (Some tt) q)
  /\ open "driverType=csv" = Err (Errorf "DriverType not supported")
  /\ open "driverType=arrow;"
     = Err (Errorf "invalid format for connection string, str: ").
Proof. intros q open. repeat split; vm_compute; reflexivity. Qed.

Lemma parseConnectStr_join_witness :
  "driverType=arrow" <> EmptyString
  /\ "bufferSize = 8;driverType=parquet" <> EmptyString
  /\ parseConnectStr TrimSpace_ascii
       ("driverType=arrow" ++ String ";" "bufferSize = 8;driverType=parquet")%string
     = match parseConnectStr TrimSpace_ascii "driverType=arrow" with
       | Err e => Err e
       | Ok ma =>
           match parseConnectStr TrimSpace_ascii
                   "bufferSize = 8;driverType=parquet" with
           | Err e => Err e
           | Ok mb => Ok (mb ∪ ma)
           end
       end.
Proof.
  assert (Ha : "driverType=arrow" <> EmptyString) by discriminate.
  assert (Hb : "bufferSize = 8;driverType=parquet" <> EmptyString)
    by discriminate.
  split; [exact Ha|]. split; [exact Hb|].
  exact (parseConnectStr_join TrimSpace_ascii _ _ Ha Hb).
Defined.

Lemma parseConnectStr_single_witness :
  gostrings.Contains " udfPath " ";" = false
  /\ gostrings.Contains " udfPath " "=" = false
  /\ gostrings.Contains "/opt/udf?a=b " ";" = false
  /\ parseConnectStr TrimSpace_ascii
       (" udfPath " ++ String "=" "/opt/udf?a=b ")%string
     = Ok {[ TrimSpace_ascii " udfPath " := TrimSpace_ascii "/opt/udf?a=b " ]}.
Proof.
  split; [reflexivity|]. split; [reflexivity|]. split; [reflexivity|].
  apply (parseConnectStr_single TrimSpace_ascii); reflexivity.
Defined.

Lemma NewConnect_known_keys_witness :
  let opts : gmap string string := <["bufferSize" := "7"]> ∅ in
  let opts' : gmap string string :=
    <["timeout" := "30"]> (<["bufferSize" := "7"]> ∅) in
  Forall (fun key => opts !! key = opts' !! key)
         [sessionOptionKey; driverTypeKey; driverBufferSizeKey;
          useUnsafeStringReaderKey; udfPathOptionKey]
  /\ NewConnect ToUpper_ascii ToLower_ascii unit (fun _ => Ok tt) opts
     = NewConnect ToUpper_ascii ToLower_ascii unit (fun _ => Ok tt) opts'.
Proof.
  intros opts opts'.
  assert (H : Forall (fun key => opts !! key = opts' !! key)
                [sessionOptionKey; driverTypeKey; driverBufferSizeKey;
                 useUnsafeStringReaderKey; udfPathOptionKey])
    by (repeat constructor; vm_compute; reflexivity).
  split; [exact H|].
  exact (NewConnect_known_keys ToUpper_ascii ToLower_ascii unit
           (fun _ => Ok tt) opts opts' H).
Defined.

Lemma Connect_query_function_witness :
  let q1 : queryHandle := fun _ _ => Ok (mkLocalResult None) in
  let q2 : queryHandle := fun _ _ => Ok (mkLocalResult (Some [])) in
  let opts : gmap string string := <["session" := "/tmp/s"]> ∅ in
  let c := mkConnector unit "" ARROW 512 false (Some tt) in
  let cc := mkConn unit "" ARROW 512 false (Some tt) q2 in
  NewConnect ToUpper_ascii ToLower_ascii unit (fun _ => Ok tt) opts = Ok c
  /\ Connect unit q1 (fun _ => q2) c = Ok cc
  /\ (match opts !! sessionOptionKey with
      | Some sessionPath =>
          exists s, (fun _ : string => Ok tt) sessionPath = Ok s
                    /\ session unit cc = Some s
                    /\ QueryFun unit cc = (fun _ : unit => q2) s
      | None => session unit cc = None /\ QueryFun unit cc = q1
      end
      /\ bufferSize unit cc = c_bufferSize unit c
      /\ useUnsafe unit cc = c_useUnsafe unit c
      /\ udfPath unit cc = c_udfPath unit c).
Proof.
  intros q1 q2 opts c cc.
  assert (Hn : NewConnect ToUpper_ascii ToLower_ascii unit (fun _ => Ok tt)
                 opts = Ok c) by (vm_compute; reflexivity).
  assert (Hc : Connect unit q1 (fun _ => q2) c = Ok cc) by reflexivity.
  split; [exact Hn|]. split; [exact Hc|].
  exact (Connect_query_function ToUpper_ascii ToLower_ascii unit
           (fun _ => Ok tt) q1 (fun _ => q2) opts c cc Hn Hc).
Defined.

Lemma Open_format_witness :
  let q : queryHandle := fun _ _ => Ok (mkLocalResult None) in
  let open := Open ToUpper_ascii ToLower_ascii unit (fun _ => Ok tt) q
                (fun _ => q) TrimSpace_ascii in
  let cc := mkConn unit "" PARQUET 512 false None q in
  open "driverType=parquet" = Ok cc
  /\ (driverType unit cc = ARROW
      /\ DriverType_String (driverType unit cc) = "Arrow"
      \/ driverType unit cc = PARQUET
         /\ DriverType_String (driverType unit cc) = "Parquet")
  /\ (forall opts,
        parseConnectStr TrimSpace_ascii "driverType=parquet" = Ok opts ->
        opts !! driverBufferSizeKey = None -> bufferSize unit cc = 512).
Proof.
  intros q open cc.
  assert (H : open "driverType=parquet" = Ok cc) by (vm_compute; reflexivity).
  split; [exact H|].
  exact (Open_format ToUpper_ascii ToLower_ascii unit (fun _ => Ok tt) q
           (fun _ => q) TrimSpace_ascii _ cc H).
Defined.

Lemma Open_defaults_witness :
  let q : queryHandle := fun _ _ => Ok (mkLocalResult None) in
  let opts : gmap string string := <["timeout" := "30"]> ∅ in
  parseConnectStr TrimSpace_ascii "timeout=30" = Ok opts
  /\ Forall (fun key => opts !! key = None)
            [sessionOptionKey; driverTypeKey; driverBufferSizeKey;
             useUnsafeStringReaderKey; udfPathOptionKey]
  /\ Open ToUpper_ascii ToLower_ascii unit (fun _ => Ok tt) q (fun _ => q)
       TrimSpace_ascii "timeout=30"
     = Ok (mkConn unit "" ARROW 512 false None q).
Proof.
  intros q opts.
  assert (Hp : parseConnectStr TrimSpace_ascii "timeout=30" = Ok opts)
    by (vm_compute; reflexivity).
  assert (H : Forall (fun key => opts !! key = None)
                [sessionOptionKey; driverTypeKey; driverBufferSizeKey;
                 useUnsafeStringReaderKey; udfPathOptionKey])
    by (repeat constructor; vm_compute; reflexivity).
  split; [exact Hp|]. split; [exact H|].
  exact (Open_defaults ToUpper_ascii ToLower_ascii unit (fun _ => Ok tt) q
           (fun _ => q) TrimSpace_ascii _ opts Hp H).
Defined.

Lemma parseDriverType_String_witness :
  ToUpper_ascii "Arrow" = "ARROW"
  /\ ToUpper_ascii "Parquet" = "PARQUET"
  /\ ToUpper_ascii "Invalid" = "INVALID"
  /\ ToUpper_ascii "" = ""
  /\ parseDriverType ToUpper_ascii (DriverType_String PARQUET)
     = if (PARQUET =? ARROW) || (PARQUET =? PARQUET) then PARQUET else INVALID.
Proof.
  repeat (split; [reflexivity|]).
  apply (parseDriverType_String ToUpper_ascii PARQUET); reflexivity.
Defined.

Lemma QueryContext_rows_witness :
  let ipc := fun _ : bytes => Ok sample_stream in
  let pq := fun _ : bytes => sample_file in
  let interpolate := fun (q : string) (_ : list Value) => Ok q in
  let res := mkLocalResult (Some []) in
  let c := mkConn unit "/udf" PARQUET 64 true None (fun _ _ => Ok res) in
  let r := FileCursor.mkParquetRows res sample_file 64 true true [] 0 false
             false 0 0 0 in
  QueryContext unit ipc pq interpolate c "SELECT 1" [] = Ok (RowsParquet r)
  /\ exists q res' buf,
       compileArguments interpolate "SELECT 1" [] = Ok q
       /\ QueryFun unit c q
            [DriverType_String (driverType unit c); udfPath unit c] = Ok res'
       /\ Buf res' = Some buf
       /\ driverType unit c = PARQUET
       /\ FileCursor.reader r = pq buf
       /\ FileCursor.localResult r = res'
       /\ FileCursor.bufferSize r = bufferSize unit c
       /\ FileCursor.useUnsafeStringReader r = useUnsafe unit c
       /\ FileCursor.needNewBuffer r = true.
Proof.
  intros ipc pq interpolate res c r.
  assert (H : QueryContext unit ipc pq interpolate c "SELECT 1" []
              = Ok (RowsParquet r)) by reflexivity.
  split; [exact H|].
  exact (QueryContext_rows unit ipc pq interpolate c "SELECT 1" [] _ H).
Defined.

Lemma QueryContext_parquet_witness :
  let ipc := fun _ : bytes => Ok sample_stream in
  let pq := fun _ : bytes => sample_file in
  let interpolate := fun (q : string) (_ : list Value) => Ok q in
  let c := mkConn unit "" PARQUET 64 false None
             (fun _ _ => Ok (mkLocalResult (Some []))) in
  driverType unit c = PARQUET
  /\ (is_ok (QueryContext unit ipc pq interpolate c "SELECT 1" []) = true <->
      exists q res buf,
        compileArguments interpolate "SELECT 1" [] = Ok q
        /\ QueryFun unit c q ["Parquet"; udfPath unit c] = Ok res
        /\ Buf res = Some buf).
Proof.
  intros ipc pq interpolate c. split; [reflexivity|].
  apply (QueryContext_parquet unit ipc pq interpolate c "SELECT 1" []).
  reflexivity.
Defined.

Lemma Scan_rows_witness :
  let next := fun (n : nat) (dest : list Value) =>
                (match n with
                 | O => Some (Errorf "EOF")
                 | S _ => None
                 end, Nat.pred n) in
  let close := fun _ : nat => (@None error, 0%nat) in
  let r := mkSingleRow nat None (Some 0%nat) in
  sr_err nat r = None
  /\ sr_rows nat r = Some 0%nat
  /\ Scan nat next close r [VNull]
     = Some match next 0%nat [VNull] with
            | (Some e, rows') =>
                (Some e, {| sr_err := None; sr_rows := Some rows' |})
            | (None, rows') =>
                (fst (close rows'),
                 {| sr_err := None; sr_rows := Some (snd (close rows')) |})
            end.
Proof.
  intros next close r. split; [reflexivity|]. split; [reflexivity|].
  apply (Scan_rows nat next close r 0%nat [VNull]); reflexivity.
Defined.
